(** * fileguard (watchman): the command-line entry point, [src/main.c]

    A shallow embedding of [main], [cleanup], [catch_sig] and [usage] as
    state-passing programs over an explicit trace of the calls the process
    makes, followed by the properties of the event-stream decoding loop,
    the action dispatch, start-up validation and teardown. *)

From Stdlib Require Import ZArith String Ascii Bool Lia List.
From coqutil Require Import Byte Word.LittleEndianList.
Import ListNotations.

Local Open Scope string_scope.
Local Open Scope list_scope.
Local Open Scope Z_scope.

(** * The program *)

(** ** C strings

    A C string is modelled by a [string]; a [char *] that may be [NULL]
    by an [option string]. *)

Module CString.

(** [strcmp]: only the sign of the result is specified by C. *)
Definition strcmp (a b : string) : Z :=
  match String.compare a b with
  | Eq => 0
  | Lt => -1
  | Gt => 1
  end.

(** [strrchr s c]: the suffix of [s] that starts at the last [c]. *)
Fixpoint strrchr (s : string) (c : ascii) : option string :=
  match s with
  | EmptyString => None
  | String d rest =>
      match strrchr rest c with
      | Some t => Some t
      | None => if Ascii.eqb d c then Some s else None
      end
  end.

Fixpoint is_delim (c : ascii) (delim : string) : bool :=
  match delim with
  | EmptyString => false
  | String d rest => Ascii.eqb c d || is_delim c rest
  end.

Fixpoint skip_delims (delim s : string) : string :=
  match s with
  | EmptyString => EmptyString
  | String c rest => if is_delim c delim then skip_delims delim rest else s
  end.

(** The token at the head of [s] and what follows its delimiter. *)
Fixpoint scan_token (delim s : string) : string * string :=
  match s with
  | EmptyString => (EmptyString, EmptyString)
  | String c rest =>
      if is_delim c delim then (EmptyString, rest)
      else let '(tok, saved) := scan_token delim rest in (String c tok, saved)
  end.

(** [strtok]: the first argument is the position the scan resumes from
    (the string itself on a first call, the saved position on a call
    with [NULL]); the result is the token, [None] for [NULL], and the
    position saved for the next call. *)
Definition strtok (s delim : string) : option string * string :=
  match skip_delims delim s with
  | EmptyString => (None, EmptyString)
  | s' => let '(tok, saved) := scan_token delim s' in (Some tok, saved)
  end.

Fixpoint occurs (c : ascii) (s : string) : bool :=
  match s with
  | EmptyString => false
  | String d rest => Ascii.eqb d c || occurs c rest
  end.

End CString.
Import CString.

(** ** The inotify record, as it lies in the read buffer

    [struct inotify_event] is four 32-bit fields followed by [len] bytes of
    name; fields are little-endian. *)

Record inotify_event := mkEvent {
  ev_wd : Z;
  ev_mask : Z;
  ev_cookie : Z;
  ev_len : Z;
  ev_name : list byte
}.

Definition sizeof_inotify_event : Z := 16.

Definition IN_ALL_EVENTS : Z := 4095.

Definition load32 (buf : list byte) (off : nat) : Z :=
  le_combine (firstn 4 (skipn off buf)).

Definition signed32 (z : Z) : Z :=
  if z <? 2 ^ 31 then z else z - 2 ^ 32.

(** [(struct inotify_event * ) p]: the view of the bytes at offset [p];
    [None] when the fixed header does not lie inside the array. *)
Definition load_event (buf : list byte) (p : Z) : option inotify_event :=
  if (0 <=? p) && (p + sizeof_inotify_event <=? Z.of_nat (length buf)) then
    let o := Z.to_nat p in
    let len := load32 buf (o + 12) in
    Some {| ev_wd := signed32 (load32 buf o);
            ev_mask := load32 buf (o + 4);
            ev_cookie := load32 buf (o + 8);
            ev_len := len;
            ev_name := firstn (Z.to_nat len) (skipn (o + 16) buf) |}
  else None.

Definition encode_event (ev : inotify_event) : list byte :=
  le_split 4 (ev_wd ev) ++ le_split 4 (ev_mask ev) ++
  le_split 4 (ev_cookie ev) ++ le_split 4 (ev_len ev) ++ ev_name ev.

(** Records packed back to back, each one its header and its [len] bytes. *)
Definition pack (evs : list inotify_event) : list byte :=
  flat_map encode_event evs.

Definition wf_event (ev : inotify_event) : Prop :=
  - 2 ^ 31 <= ev_wd ev < 2 ^ 31 /\
  0 <= ev_mask ev < 2 ^ 32 /\
  0 <= ev_cookie ev < 2 ^ 32 /\
  ev_len ev < 2 ^ 32 /\
  ev_len ev = Z.of_nat (length (ev_name ev)).

(** ** The process: globals, calls made, control

    Every call [main] makes to the outside (libc, the kernel, the other
    translation units of fileguard) is recorded in a trace, newest first.
    What those calls return is given by an [env]. *)

Inductive stream := Stdout | Stderr.

Inductive arg := AStr (s : string) | AInt (z : Z).

Inductive level := LDebug | LInfo | LWarn.

(** The calls; [main] has no call of [close], [EClose] stands for it in
    what is said about the trace. *)
Inductive effect :=
| EPrintf (to : stream) (fmt : string) (args : list arg)
| EPerror (msg : string)
| ELog (lvl : level) (fmt : string) (args : list arg)
| ELogSetQuiet (q : Z)
| ELogSetLevel (l : Z)
| EFileCheck (path : string)
| ECreateFile (path : string) (contents : option string)
| EParseYaml (path : string)
| ECheckPermissions (path : string)
| EInotifyInit
| EInotifyAddWatch (fd : Z) (path : string) (mask : Z)
| EInotifyRmWatch (fd wd : Z)
| ERead (fd : Z)
| EClose (fd : Z)
| ESystem (cmd : string)
| ERaiseNotification (ltime evname : string).

(** Functions registered with [atexit]. *)
Inductive handler := Cleanup.

(** The file-scope variables [sc], [fd], [wd], the [atexit] list and the
    trace. *)
Record state := mkState {
  sc : bool;
  fd : Z;
  wd : Z;
  atexit_list : list handler;
  trace : list effect
}.

(** Statics are zero-initialised; [sc] starts [true]. *)
Definition initial : state :=
  {| sc := true; fd := 0; wd := 0; atexit_list := []; trace := [] |}.

(** The calls made so far, oldest first. *)
Definition history (s : state) : list effect := rev (trace s).

Inductive fault :=
| OutOfBounds (array : string) (index : Z)
| NullPointer.

Inductive outcome (A : Type) :=
| Ret (a : A)
| Exited (status : Z)
| Faulted (f : fault)
| Blocked.
Arguments Ret {A} a.
Arguments Exited {A} status.
Arguments Faulted {A} f.
Arguments Blocked {A}.

Definition M (A : Type) : Type := state -> outcome A * state.

Definition ret {A} (a : A) : M A := fun s => (Ret a, s).

Definition bind {A B} (m : M A) (k : A -> M B) : M B :=
  fun s =>
    match m s with
    | (Ret a, s') => k a s'
    | (Exited z, s') => (Exited z, s')
    | (Faulted f, s') => (Faulted f, s')
    | (Blocked, s') => (Blocked, s')
    end.

Declare Scope proc_scope.
Delimit Scope proc_scope with proc.
Notation "x <- m ;; k" := (bind m (fun x => k))
  (at level 100, m at next level, right associativity) : proc_scope.
Notation "m ;; k" := (bind m (fun _ => k))
  (at level 100, right associativity) : proc_scope.
Local Open Scope proc_scope.

Definition gets {A} (f : state -> A) : M A := fun s => (Ret (f s), s).

(** The state with one more call recorded. *)
Definition push (x : effect) (s : state) : state :=
  {| sc := sc s; fd := fd s; wd := wd s;
     atexit_list := atexit_list s; trace := x :: trace s |}.

Definition emit (e : effect) : M unit := fun s => (Ret tt, push e s).

Definition set_sc (b : bool) : M unit :=
  fun s => (Ret tt, {| sc := b; fd := fd s; wd := wd s;
                       atexit_list := atexit_list s; trace := trace s |}).

Definition set_fd (v : Z) : M unit :=
  fun s => (Ret tt, {| sc := sc s; fd := v; wd := wd s;
                       atexit_list := atexit_list s; trace := trace s |}).

Definition set_wd (v : Z) : M unit :=
  fun s => (Ret tt, {| sc := sc s; fd := fd s; wd := v;
                       atexit_list := atexit_list s; trace := trace s |}).

Definition atexit (h : handler) : M unit :=
  fun s => (Ret tt, {| sc := sc s; fd := fd s; wd := wd s;
                       atexit_list := h :: atexit_list s; trace := trace s |}).

Definition raise_fault {A} (f : fault) : M A := fun s => (Faulted f, s).

Definition printf (fmt : string) (args : list arg) : M unit :=
  emit (EPrintf Stdout fmt args).
Definition fprintf (to : stream) (fmt : string) (args : list arg) : M unit :=
  emit (EPrintf to fmt args).
Definition perror (msg : string) : M unit := emit (EPerror msg).
Definition log_debug (fmt : string) (args : list arg) : M unit :=
  emit (ELog LDebug fmt args).
Definition log_info (fmt : string) (args : list arg) : M unit :=
  emit (ELog LInfo fmt args).
Definition log_warn (fmt : string) (args : list arg) : M unit :=
  emit (ELog LWarn fmt args).

Definition EXIT_SUCCESS : Z := 0.
Definition EXIT_FAILURE : Z := 1.
Definition SIGINT : Z := 2.

(** [cleanup]: [inotify_rm_watch (fd, wd)] on the globals as they are. *)
Definition cleanup : M unit :=
  fd_ <- gets fd ;;
  wd_ <- gets wd ;;
  emit (EInotifyRmWatch fd_ wd_).

Definition run_handler (h : handler) : M unit :=
  match h with
  | Cleanup => cleanup
  end.

(** [exit] calls the [atexit] functions, last registered first. *)
Fixpoint run_atexit (hs : list handler) : M unit :=
  match hs with
  | [] => ret tt
  | h :: hs' => run_handler h ;; run_atexit hs'
  end.

Definition exit {A} (status : Z) : M A :=
  fun s => (Exited status, snd (run_atexit (atexit_list s) s)).

(** [catch_sig] *)
Definition catch_sig {A} (s : Z) : M A :=
  log_warn "Signal %i caught! Cleaning up...\n" [AInt s] ;;
  set_sc false ;;
  cleanup ;;
  exit EXIT_SUCCESS.

Definition usage_text : string :=
  "Usage: (note that these are optional arguments)\n\n\t %s -[h|v|n] <other.yaml>\n\n-h : Display this help message\n-v : Turns ON verbosity\n-n : Turns ON libnotify notifications\n".

(** [usage] *)
Definition usage (application_name : string) : M unit :=
  fprintf Stdout usage_text [AStr application_name].

(** ** What the outside returns *)

Record file_t := mkFile { flag : Z; data : string }.

Record yaml_t := mkYaml {
  return_flag : bool;
  inode : string;
  event : string;
  action : string
}.

(** [CONFIG_FILE] is a macro of [fileguard.h]; [getopt] gives, for an
    argument vector, the values its successive calls return before [-1]
    and the vector as it leaves it; [stack_verbose] and [stack_notifier]
    are what the storage of the locals [verbose] and [notifier] holds when
    [main] is entered. *)
Record env := mkEnv {
  CONFIG_FILE : string;
  getopt : list string -> list ascii * list string;
  stack_verbose : Z;
  stack_notifier : Z;
  file_check : string -> file_t;
  create_file : string -> option string -> file_t;
  parse_yaml_config : string -> yaml_t;
  check_inode_permissions : string -> Z;
  inotify_init : Z;
  inotify_add_watch : Z -> string -> Z -> Z;
  get_event : inotify_event -> string;
  asctime_now : string;
  malloc_ok : bool
}.

(** What a blocking [read] on the channel meets: a return value with the
    contents of [buf], or SIGINT. *)
Inductive stimulus :=
| ReadReturns (rd : Z) (buf : list byte)
| Sigint.

(** ** [main]

    Format strings are kept as they are written in the source. *)

(** The table [events]: thirteen entries, none of them [NULL]. *)
Definition events : list string :=
  [ "IN_ACCESS"; "IN_ATTRIB"; "IN_CLOSE_WRITE"; "IN_CLOSE_NOWRITE";
    "IN_CREATE"; "IN_DELETE"; "IN_DELETE_SELF"; "IN_MODIFY";
    "IN_MOVE_SELF"; "IN_MOVED_FROM"; "IN_MOVED_TO"; "IN_OPEN";
    "IN_UNMOUNT" ].

Definition dquote : string := String (ascii_of_nat 34) EmptyString.
Definition newline : string := String (ascii_of_nat 10) EmptyString.

Section Main.

Variable e : env.

(** The [getopt] loop over the values [getopt] returns; [verbose] and
    [notifier] are only ever assigned [1] here. *)
Fixpoint parse_options (argv0 : string) (opts : list ascii)
         (verbose notifier : Z) : M (Z * Z) :=
  match opts with
  | [] => ret (verbose, notifier)
  | c :: rest =>
      if Ascii.eqb c "h" then
        usage argv0 ;; exit EXIT_SUCCESS
      else if Ascii.eqb c "v" then
        log_debug "Setting verbosity flag" [] ;;
        parse_options argv0 rest 1 notifier
      else if Ascii.eqb c "n" then
        log_debug "Setting notifier flag" [] ;;
        parse_options argv0 rest verbose 1
      else
        usage argv0 ;; exit EXIT_FAILURE
  end.

(** [if (!verbose) log_set_quiet(1); else log_set_level(3);] *)
Definition init_verbosity (verbose : Z) : M unit :=
  if verbose =? 0 then emit (ELogSetQuiet 1) else emit (ELogSetLevel 3).

(** [dot && strcmp(dot, "yaml")] with [dot = strrchr(argv[i], '.')] *)
Definition extension_check (a : string) : bool :=
  match strrchr a "." with
  | Some dot => negb (strcmp dot "yaml" =? 0)
  | None => false
  end.

(** The loop over [argv[1..]] that chooses the configuration file: both
    branches [break], so only its first element is looked at. *)
Definition select_yaml (args : list string) : M (option string) :=
  match args with
  | [] => ret None
  | a :: _ =>
      if extension_check a then
        log_info "yaml file: %s" [AStr a] ;;
        ret (Some a)
      else
        ret (Some (CONFIG_FILE e))
  end.

(** [for (int i = 0; events[i] != NULL; i++)]: the scan of [events] for
    the configured name, from index [i] with [tbl] the entries from [i]
    on.  The result is the indices read and what the loop ends with.  A
    mismatch sets [event_flag] to [1] and goes on; as no entry is [NULL]
    the loop can only end at the [break], where [event_flag] is [0], or
    go on to read [events[i]] behind the last entry, outside the array. *)
Fixpoint scan_events (name : string) (tbl : list string) (i : Z)
  : list Z * outcome Z :=
  match tbl with
  | [] => ([i], Faulted (OutOfBounds "events" i))
  | entry :: rest =>
      if strcmp name entry =? 0 then ([i], Ret 0)
      else let '(reads, r) := scan_events name rest (i + 1) in
           (i :: reads, r)
  end.

Definition check_event (name : string) : M Z :=
  fun s => (snd (scan_events name events 0), s).

(** Lines 266-287: execute or log. *)
Definition dispatch (prepend command y_event ltime evname : string)
  : M unit :=
  if (strcmp prepend "execute" =? 0) && (strcmp y_event evname =? 0) then
    emit (ESystem command)
  else if strcmp prepend "log" =? 0 then
    if malloc_ok e then
      let eventstr := (ltime ++ evname ++ newline)%string in
      emit (ECreateFile command (Some eventstr)) ;;
      if flag (create_file e command (Some eventstr)) <? 0 then
        perror "Couldn't create log file. Reason" ;;
        exit EXIT_FAILURE
      else ret tt
    else
      perror "malloc failed. Reason" ;;
      exit EXIT_FAILURE
  else ret tt.

(** The body of the inner [for], after [ev] has been read at [p]. *)
Definition on_event (notifier : Z) (prepend command y_event : string)
           (ev : inotify_event) : M unit :=
  let ltime := asctime_now e in
  let evname := get_event e ev in
  printf "%s event ocurred\n" [AStr evname] ;;
  log_debug "Raising notification" [] ;;
  (if notifier =? 0 then ret tt
   else emit (ERaiseNotification ltime evname)) ;;
  dispatch prepend command y_event ltime evname.

Definition deref_event (buf : list byte) (p : Z) : M inotify_event :=
  match load_event buf p with
  | Some ev => ret ev
  | None => raise_fault (OutOfBounds "buf" p)
  end.

(** [for (p = buf; p < buf + rd;) { ... p += sizeof(struct inotify_event)
    + ev->len; }], with [p] an offset into [buf]; the result is the
    offset the loop ends at.  [fuel] bounds the number of iterations;
    [Z.to_nat (rd - p)] is enough of it, and the loop then never ends
    while [p < rd] ([event_loop_fuel], [event_loop_cursor]). *)
Fixpoint event_loop (fuel : nat) (notifier : Z)
         (prepend command y_event : string)
         (buf : list byte) (rd p : Z) : M Z :=
  if p <? rd then
    match fuel with
    | O => ret p
    | S fuel' =>
        log_debug "Time of event: %s" [AStr (asctime_now e)] ;;
        ev <- deref_event buf p ;;
        on_event notifier prepend command y_event ev ;;
        event_loop fuel' notifier prepend command y_event buf rd
                   (p + sizeof_inotify_event + ev_len ev)
    end
  else ret p.

(** [while (sc) { rd = read(fd, buf, BUF_LEN); ... }] *)
Fixpoint watch_loop (notifier : Z) (prepend command y_event : string)
         (inputs : list stimulus) : M unit :=
  running <- gets sc ;;
  if running : bool then
    fd_ <- gets fd ;;
    emit (ERead fd_) ;;
    match inputs with
    | [] => fun s => (Blocked, s)
    | Sigint :: _ => catch_sig SIGINT
    | ReadReturns rd buf :: rest =>
        if rd =? 0 then
          fprintf Stdout "read() tossed back a 0" [] ;;
          event_loop (Z.to_nat rd) notifier prepend command y_event
                     buf rd 0 ;;
          watch_loop notifier prepend command y_event rest
        else
          perror "Couldn't read event. Reason" ;;
          ret tt
    end
  else ret tt.

(** [main], from the call of [inotify_init] on.  [strdup (y.action)] is
    taken to return a copy of the string; the code passes its result to
    [strtok] without a check. *)
Definition watch (notifier : Z) (y : yaml_t) (inputs : list stimulus)
  : M unit :=
  emit EInotifyInit ;;
  set_fd (inotify_init e) ;;
  fd_ <- gets fd ;;
  (if fd_ <? 0 then perror "Could not initialize inotify. Reason"
   else ret tt) ;;
  emit (EInotifyAddWatch fd_ (inode y) IN_ALL_EVENTS) ;;
  set_wd (inotify_add_watch e fd_ (inode y) IN_ALL_EVENTS) ;;
  wd_ <- gets wd ;;
  (if wd_ <? 0 then perror "Could not add watch. Reason"
   else ret tt) ;;
  let '(prepend, saved) := strtok (action y) " " in
  let '(command, _) := strtok saved dquote in
  match command with
  | None =>
      fprintf Stderr "Command/path cannot be none. Exiting.\n" [] ;;
      exit EXIT_FAILURE
  | Some command =>
      match prepend with
      | None => raise_fault NullPointer
      | Some prepend =>
          watch_loop notifier prepend command (event y) inputs ;;
          exit EXIT_SUCCESS
      end
  end.

(** [main], from the file check of the configuration on. *)
Definition configure (notifier : Z) (yaml_target : string)
           (inputs : list stimulus) : M unit :=
  printf "Initializing fileguard!\n" [] ;;
  emit (EFileCheck yaml_target) ;;
  let yaml := file_check e yaml_target in
  if flag yaml <? 0 then
    fprintf Stderr "Error %i: Unable to open file: %s.\n"
            [AInt (flag yaml); AStr (data yaml)] ;;
    log_debug "Creating configuration file for you...\n" [] ;;
    emit (ECreateFile (CONFIG_FILE e) None) ;;
    exit EXIT_FAILURE
  else
    log_debug "File %s found" [AStr (data yaml)] ;;
    emit (EParseYaml yaml_target) ;;
    let y := parse_yaml_config e yaml_target in
    if negb (return_flag y) then
      perror "Could not initialize YAML parser. Reason" ;;
      exit EXIT_FAILURE
    else
      log_debug "Parsed YAML file: inode: %s event: %s execute: %s"
                [AStr (inode y); AStr (event y); AStr (action y)] ;;
      event_flag <- check_event (event y) ;;
      if negb (event_flag =? 0) then
        fprintf Stderr "\nUnknown inode event supplied: %s\n"
                [AStr (event y)] ;;
        exit EXIT_FAILURE
      else
        log_info "inode event found! Continuing." [] ;;
        emit (EFileCheck (inode y)) ;;
        let inode_check := file_check e (inode y) in
        if flag inode_check <? 0 then
          fprintf Stderr
            ("Error %i: Unable to open inode \" ++ dquote ++ "%s\"
               ++ dquote ++ ": %s\n")%string
            [AInt (flag inode_check); AStr (inode y);
             AStr (data inode_check)] ;;
          exit EXIT_FAILURE
        else
          log_info "inode successfully found and opened." [] ;;
          emit (ECheckPermissions (inode y)) ;;
          if check_inode_permissions e (inode y) <? 0 then
            perror "Permission check for inode failed! Reason" ;;
            exit EXIT_FAILURE
          else
            watch notifier y inputs.

(** [main], from the option loop on. *)
Definition startup (argv : list string) (inputs : list stimulus) : M unit :=
  let '(opts, argv') := getopt e argv in
  let argv0 := hd EmptyString argv' in
  flags <- parse_options argv0 opts (stack_verbose e) (stack_notifier e) ;;
  let '(verbose, notifier) := flags in
  init_verbosity verbose ;;
  yaml_target <- select_yaml (tl argv') ;;
  match yaml_target with
  | None =>
      usage argv0 ;;
      fprintf Stderr "\nError: No required YAML configuration supplied.\n"
              [] ;;
      exit EXIT_FAILURE
  | Some yaml_target => configure notifier yaml_target inputs
  end.

(** [main]: [errno = 0; atexit(cleanup); signal(SIGINT, catch_sig);] and
    the rest.  SIGINT is met in the blocking [read] only, see
    [watch_loop], where [catch_sig] is the handler in place. *)
Definition main (argv : list string) (inputs : list stimulus) : M unit :=
  atexit Cleanup ;;
  startup argv inputs.

End Main.

(** ** A concrete environment

    Used to run the model on concrete inputs. *)

(** The bits of [<sys/inotify.h>], in the order of [events]. *)
Definition event_bits : list (string * Z) :=
  [ ("IN_ACCESS", 1); ("IN_ATTRIB", 4); ("IN_CLOSE_WRITE", 8);
    ("IN_CLOSE_NOWRITE", 16); ("IN_CREATE", 256); ("IN_DELETE", 512);
    ("IN_DELETE_SELF", 1024); ("IN_MODIFY", 2); ("IN_MOVE_SELF", 2048);
    ("IN_MOVED_FROM", 64); ("IN_MOVED_TO", 128); ("IN_OPEN", 32);
    ("IN_UNMOUNT", 8192) ].

(** Modelled from the spec: [get_event] is defined in a file of fileguard
    that is not part of the sources at hand.  "Exactly one canonical name
    is chosen per record (first match in enumeration order)"; a mask with
    no known bit has no name. *)
Definition classify (mask : Z) : option string :=
  option_map fst
    (find (fun nb => negb (Z.land mask (snd nb) =? 0)) event_bits).

Definition get_event_spec (ev : inotify_event) : string :=
  match classify (ev_mask ev) with
  | Some name => name
  | None => EmptyString
  end.

(** A [getopt] for the option string ["hvn"] that stops at the first
    argument that is not an option and leaves the vector as it is. *)
Fixpoint option_chars (s : string) : list ascii :=
  match s with
  | EmptyString => []
  | String c rest =>
      (if Ascii.eqb c "h" || Ascii.eqb c "v" || Ascii.eqb c "n"
       then c else "?"%char) :: option_chars rest
  end.

Fixpoint getopt_scan (args : list string) : list ascii :=
  match args with
  | String "-" (String c cs) :: rest =>
      if Ascii.eqb c "-" then [] else option_chars (String c cs) ++ getopt_scan rest
  | _ => []
  end.

Definition getopt_hvn (argv : list string) : list ascii * list string :=
  (getopt_scan (tl argv), argv).

Definition ok_file (path : string) : file_t := {| flag := 0; data := path |}.

(** Every call succeeds; the configuration is [y]; the two locals hold
    [verbose0] and [notifier0] on entry; the channel is [init_result]. *)
Definition demo_env (y : yaml_t) (verbose0 notifier0 init_result : Z) : env :=
  {| CONFIG_FILE := "fileguard.yaml";
     getopt := getopt_hvn;
     stack_verbose := verbose0;
     stack_notifier := notifier0;
     file_check := ok_file;
     create_file := fun path _ => ok_file path;
     parse_yaml_config := fun _ => y;
     check_inode_permissions := fun _ => 0;
     inotify_init := init_result;
     inotify_add_watch := fun fd_ _ _ => if fd_ <? 0 then -1 else 1;
     get_event := get_event_spec;
     asctime_now := "Fri Oct 30 09:26:00 2026" ++ newline;
     malloc_ok := true |}.

Definition execute_rule : yaml_t :=
  {| return_flag := true; inode := "/tmp/watched"; event := "IN_MODIFY";
     action := "execute " ++ dquote ++ "ls -la" ++ dquote |}.

Definition log_rule : yaml_t :=
  {| return_flag := true; inode := "/tmp/watched"; event := "IN_MODIFY";
     action := "log /tmp/fileguard.log" |}.

Definition bogus_rule : yaml_t :=
  {| return_flag := true; inode := "/tmp/watched"; event := "IN_BOGUS";
     action := "log /tmp/fileguard.log" |}.

Definition event_of_mask (mask : Z) (name : list byte) : inotify_event :=
  {| ev_wd := 1; ev_mask := mask; ev_cookie := 0;
     ev_len := Z.of_nat (length name); ev_name := name |}.

Definition ev_open : inotify_event := event_of_mask 32 [].
Definition ev_modify : inotify_event := event_of_mask 2 [].
Definition ev_delete : inotify_event := event_of_mask 512 [].

(** The array [buf] after a read that stored [bytes]: the rest of its
    [capacity] bytes is zero. *)
Definition buffer (capacity : nat) (bytes : list byte) : list byte :=
  bytes ++ repeat Byte.x00 (capacity - length bytes).

(** ** Reading traces *)

Definition is_event_line (x : effect) : bool :=
  match x with
  | EPrintf Stdout fmt [AStr _] => String.eqb fmt "%s event ocurred\n"
  | _ => false
  end.

Definition is_read (x : effect) : bool :=
  match x with ERead _ => true | _ => false end.

Definition is_rm_watch (x : effect) : bool :=
  match x with EInotifyRmWatch _ _ => true | _ => false end.

Definition is_close (x : effect) : bool :=
  match x with EClose _ => true | _ => false end.

Definition is_system (x : effect) : bool :=
  match x with ESystem _ => true | _ => false end.

Definition is_create_file (x : effect) : bool :=
  match x with ECreateFile _ _ => true | _ => false end.

Definition is_notification (x : effect) : bool :=
  match x with ERaiseNotification _ _ => true | _ => false end.

Definition count (f : effect -> bool) (l : list effect) : nat :=
  length (filter f l).

(** ** Handling a sequence of records *)

(** [for_each f l]: [f] on the elements of [l] in order, as long as none
    of them leaves. *)
Fixpoint for_each {A} (f : A -> M unit) (l : list A) : M unit :=
  match l with
  | [] => ret tt
  | a :: l' => f a ;; for_each f l'
  end.

(** One full iteration of the body of the inner [for] on the record [ev]. *)
Definition handle (e : env) (notifier : Z) (prepend command y_event : string)
           (ev : inotify_event) : M unit :=
  log_debug "Time of event: %s" [AStr (asctime_now e)] ;;
  on_event e notifier prepend command y_event ev.

(** ** The layout the specification words *)

(** The layout and the step as the specification words them: the cursor
    advances by [header_size + length], "rounded to the record's required
    alignment", so that a record takes that many bytes in the buffer. *)
Definition round_up (align z : Z) : Z := (z + align - 1) / align * align.

Definition spec_advance (align p len : Z) : Z :=
  p + round_up align (sizeof_inotify_event + len).

Definition encode_padded (align : Z) (ev : inotify_event) : list byte :=
  encode_event ev
  ++ repeat Byte.x00
       (Z.to_nat (round_up align (sizeof_inotify_event + ev_len ev)
                  - (sizeof_inotify_event + ev_len ev))).

Definition pack_padded (align : Z) (evs : list inotify_event) : list byte :=
  flat_map (encode_padded align) evs.

(** The step the code takes: [p += sizeof(struct inotify_event) + ev->len]. *)
Definition code_advance (p len : Z) : Z := p + sizeof_inotify_event + len.

(** ** Sample names, records and runs *)

Definition name3 : list byte := [Byte.x61; Byte.x62; Byte.x00].
Definition name5 : list byte :=
  [Byte.x6e; Byte.x6f; Byte.x74; Byte.x65; Byte.x00].

(** A header that declares eight bytes of name behind one whole record,
    where the read stopped after four of them. *)
Definition cut_event : inotify_event :=
  {| ev_wd := 1; ev_mask := 2; ev_cookie := 0; ev_len := 8;
     ev_name := [Byte.x61; Byte.x62; Byte.x63; Byte.x64] |}.




(** ** Invariants of the trace *)

Definition extends (s s' : state) : Prop :=
  exists later : list effect, trace s' = later ++ trace s.

Definition grows {A} (m : M A) : Prop := forall s, extends s (snd (m s)).

Definition rm_watches (s : state) : list effect := filter is_rm_watch (trace s).
Definition closes (s : state) : list effect := filter is_close (trace s).

(** The process is running: [cleanup] is the one registered handler, no
    signal was caught and nothing has been released. *)
Definition running (s : state) : Prop :=
  atexit_list s = [Cleanup] /\ sc s = true /\
  rm_watches s = [] /\ closes s = [].



(** ** What one record adds to the trace *)

(** The state after the calls of [l], made in that order. *)
Fixpoint pushes (l : list effect) (s : state) : state :=
  match l with
  | [] => s
  | x :: l' => pushes l' (push x s)
  end.

(** The calls one iteration of the inner [for] makes on [ev], in order,
    when writing the log does not fail. *)
Definition record_effects (e : env) (notifier : Z)
           (prepend command y_event : string) (ev : inotify_event)
  : list effect :=
  let ltime := asctime_now e in
  let evname := get_event e ev in
  [ELog LDebug "Time of event: %s" [AStr ltime];
   EPrintf Stdout "%s event ocurred\n" [AStr evname];
   ELog LDebug "Raising notification" []]
  ++ (if notifier =? 0 then [] else [ERaiseNotification ltime evname])
  ++ (if String.eqb prepend "execute" && String.eqb y_event evname
      then [ESystem command]
      else if String.eqb prepend "log"
           then [ECreateFile command
                   (Some (ltime ++ evname ++ newline)%string)]
           else []).

(** In log mode, [malloc] and [create_file] succeed for the line of [ev]. *)
Definition log_succeeds (e : env) (prepend command : string)
           (ev : inotify_event) : Prop :=
  prepend = "log" ->
  malloc_ok e = true /\
  0 <= flag (create_file e command
               (Some (asctime_now e ++ get_event e ev ++ newline)%string)).

(** Three whole records: Open, Modify with a three-byte name, Delete with
    a five-byte name. *)
Definition three_events : list inotify_event :=
  [ev_open; event_of_mask 2 name3; event_of_mask 512 name5].

(** The line the loop prints for a record, the notification it raises and
    the line it writes to the log. *)
Definition event_line (e : env) (ev : inotify_event) : effect :=
  EPrintf Stdout "%s event ocurred\n" [AStr (get_event e ev)].

Definition notification (e : env) (ev : inotify_event) : effect :=
  ERaiseNotification (asctime_now e) (get_event e ev).

Definition log_write (e : env) (command : string) (ev : inotify_event)
  : effect :=
  ECreateFile command
    (Some (asctime_now e ++ get_event e ev ++ newline)%string).

(** The records whose name is the configured one. *)
Definition triggering (e : env) (y_event : string)
           (evs : list inotify_event) : list inotify_event :=
  filter (fun ev => String.eqb y_event (get_event e ev)) evs.

(** Writing the log file [command] never fails. *)
Definition log_never_fails (e : env) (command : string) : Prop :=
  malloc_ok e = true /\
  forall contents, 0 <= flag (create_file e command contents).

(** ** The read loop and what precedes it *)

(** Reads that return [0], with what the buffer holds after each. *)
Definition zero_reads (bufs : list (list byte)) : list stimulus :=
  map (ReadReturns 0) bufs.

(** The calls of one round of the loop on a read of [0] from [fd_]. *)
Definition zero_round (fd_ : Z) : list effect :=
  [ERead fd_; EPrintf Stdout "read() tossed back a 0" []].

(** The calls of [inotify_init] and [inotify_add_watch] with their error
    reports, and the state they leave. *)
Definition open_effects (e : env) (y : yaml_t) : list effect :=
  let fd_ := inotify_init e in
  let wd_ := inotify_add_watch e fd_ (inode y) IN_ALL_EVENTS in
  EInotifyInit
  :: (if fd_ <? 0 then [EPerror "Could not initialize inotify. Reason"]
      else [])
  ++ EInotifyAddWatch fd_ (inode y) IN_ALL_EVENTS
  :: (if wd_ <? 0 then [EPerror "Could not add watch. Reason"] else []).

Definition opened (e : env) (y : yaml_t) (s : state) : state :=
  {| sc := sc s;
     fd := inotify_init e;
     wd := inotify_add_watch e (inotify_init e) (inode y) IN_ALL_EVENTS;
     atexit_list := atexit_list s;
     trace := rev (open_effects e y) ++ trace s |}.

(** ** Triples

    [triple P m R Q F B]: run from a state in [P], [m] ends in [R] if it
    returns, in [Q status] if the process exits, in [F f] if it runs into
    the fault [f], and in [B] if it is left waiting in [read]. *)
Definition triple {A} (P : state -> Prop) (m : M A)
           (R : state -> Prop) (Q : Z -> state -> Prop)
           (F : fault -> state -> Prop) (B : state -> Prop) : Prop :=
  forall s, P s ->
    match m s with
    | (Ret _, s') => R s'
    | (Exited z, s') => Q z s'
    | (Faulted f, s') => F f s'
    | (Blocked, s') => B s'
    end.

(** The state [exit] leaves: the [atexit] handlers have run. *)
Definition exited (s : state) : state :=
  pushes (repeat (EInotifyRmWatch (fd s) (wd s)) (length (atexit_list s))) s.

(** The state [catch_sig] leaves. *)
Definition signalled (s : state) : state :=
  exited (push (EInotifyRmWatch (fd s) (wd s))
            {| sc := false; fd := fd s; wd := wd s;
               atexit_list := atexit_list s;
               trace := ELog LWarn "Signal %i caught! Cleaning up...\n"
                             [AInt SIGINT] :: trace s |}).

(** ** Acting on an event *)

Definition is_log_line (x : effect) : bool :=
  match x with ECreateFile _ (Some _) => true | _ => false end.

(** The calls by which the program acts on an event or shows it. *)
Definition acts (x : effect) : bool :=
  is_system x || is_notification x || is_event_line x || is_log_line x.

Definition idle (s : state) : Prop := filter acts (history s) = [].

(** No [read] has been called. *)
Definition unread (s : state) : Prop := filter is_read (history s) = [].

(** The exit statuses of [main]: a failure status is only given before
    the first [read]. *)
Definition status_ok (z : Z) (s : state) : Prop :=
  z = EXIT_SUCCESS \/ (z = EXIT_FAILURE /\ unread s).

(** ** Before and after [inotify_init] *)

Definition is_init (x : effect) : bool :=
  match x with EInotifyInit => true | _ => false end.

(** [inotify_init] has not been called. *)
Definition unopened (s : state) : Prop := filter is_init (history s) = [].

(** The checks [main] makes on the configuration [yaml_target] names. *)
Definition checks_passed (e : env) (yaml_target : string) : Prop :=
  0 <= flag (file_check e yaml_target) /\
  return_flag (parse_yaml_config e yaml_target) = true /\
  In (event (parse_yaml_config e yaml_target)) events /\
  0 <= flag (file_check e (inode (parse_yaml_config e yaml_target))) /\
  0 <= check_inode_permissions e (inode (parse_yaml_config e yaml_target)).

(** Nothing was obtained from inotify and nothing released. *)
Definition untouched (s : state) : Prop :=
  fd s = 0 /\ wd s = 0 /\ atexit_list s = [Cleanup] /\
  filter is_rm_watch (history s) = [] /\ unopened s.

(** [inotify_init] has been called. *)
Definition seen (s : state) : Prop := In EInotifyInit (history s).

Definition released_unopened (s : state) : Prop :=
  unopened s -> filter is_rm_watch (history s) = [EInotifyRmWatch 0 0].

(** ** Options *)

(** The line the option loop logs for [-v] or [-n]. *)
Definition flag_line (c : ascii) : effect :=
  ELog LDebug (if Ascii.eqb c "v" then "Setting verbosity flag"
               else "Setting notifier flag") [].

Definition is_flag (c : ascii) : bool := Ascii.eqb c "v" || Ascii.eqb c "n".

(** ** Words and delimiters *)

(** No character of [s] is one of [delim]; every character of [s] is. *)
Fixpoint clean (delim s : string) : bool :=
  match s with
  | EmptyString => true
  | String c rest => negb (is_delim c delim) && clean delim rest
  end.

Fixpoint only (delim s : string) : bool :=
  match s with
  | EmptyString => true
  | String c rest => is_delim c delim && only delim rest
  end.

(** An environment in which [create_file] fails on the log line of an
    [IN_MODIFY] record and on no other. *)
Definition failing_log_env : env :=
  {| CONFIG_FILE := "fileguard.yaml";
     getopt := getopt_hvn;
     stack_verbose := 0;
     stack_notifier := 0;
     file_check := ok_file;
     create_file := fun path contents =>
       if String.eqb path "/tmp/fileguard.log" then
         match contents with
         | Some line =>
             if String.eqb line
                  ("Fri Oct 30 09:26:00 2026" ++ newline
                   ++ "IN_MODIFY" ++ newline)%string
             then {| flag := -1; data := path |} else ok_file path
         | None => ok_file path
         end
       else ok_file path;
     parse_yaml_config := fun _ => log_rule;
     check_inode_permissions := fun _ => 0;
     inotify_init := 3;
     inotify_add_watch := fun _ _ _ => 1;
     get_event := get_event_spec;
     asctime_now := "Fri Oct 30 09:26:00 2026" ++ newline;
     malloc_ok := true |}.

(** A configuration whose action is a mode word and nothing else. *)
Definition lone_mode_rule : yaml_t :=
  {| return_flag := true; inode := "/tmp/watched"; event := "IN_MODIFY";
     action := "log" |}.

(** ** Records as inotify writes them *)

(** The cursor after the records [evs] when every step is the one the
    specification words, [header_size + length] rounded to [align]. *)
Definition spec_cursor (align : Z) (evs : list inotify_event) : Z :=
  fold_left (fun p ev => spec_advance align p (ev_len ev)) evs 0.

(** Names as the kernel stores them, padded with zero bytes to a multiple
    of [sizeof (struct inotify_event)], the padding counted in [len]. *)
Definition name16 : list byte :=
  [Byte.x61; Byte.x62] ++ repeat Byte.x00 14.

Definition name32 : list byte :=
  [Byte.x6e; Byte.x6f; Byte.x74; Byte.x65; Byte.x73; Byte.x2e; Byte.x74;
   Byte.x78; Byte.x74; Byte.x2e; Byte.x62; Byte.x61; Byte.x63; Byte.x6b;
   Byte.x75; Byte.x70; Byte.x31] ++ repeat Byte.x00 15.

Definition kernel_events : list inotify_event :=
  [ev_open; event_of_mask 2 name16; event_of_mask 512 name32].


(** An environment in which the files [conf.yaml] and [/tmp/watched] can
    be opened and no other. *)
Definition strict_env : env :=
  {| CONFIG_FILE := "fileguard.yaml";
     getopt := getopt_hvn;
     stack_verbose := 0;
     stack_notifier := 0;
     file_check := fun path =>
       if String.eqb path "conf.yaml" || String.eqb path "/tmp/watched"
       then ok_file path else {| flag := -1; data := path |};
     create_file := fun path _ => ok_file path;
     parse_yaml_config := fun _ => execute_rule;
     check_inode_permissions := fun _ => 0;
     inotify_init := 3;
     inotify_add_watch := fun _ _ _ => 1;
     get_event := get_event_spec;
     asctime_now := "Fri Oct 30 09:26:00 2026" ++ newline;
     malloc_ok := true |}.

(** * Properties *)

(** ** C strings: facts *)

Lemma strcmp_eq (a b : string) : strcmp a b = 0 <-> a = b.
Proof.
  unfold strcmp. split.
  - destruct (String.compare a b) eqn:E; try discriminate.
    intros _. apply String.compare_eq_iff, E.
  - intros <-. pose proof (String.compare_antisym a a) as E.
    destruct (String.compare a a); simpl in E; congruence.
Qed.

Lemma strcmp_refl (a : string) : strcmp a a = 0.
Proof. apply strcmp_eq. reflexivity. Qed.

Lemma strrchr_head (s : string) (c : ascii) (t : string) :
  strrchr s c = Some t -> exists u, t = String c u.
Proof.
  induction s as [|d rest IH]; simpl; [discriminate|].
  destruct (strrchr rest c) as [t'|].
  - intros [= <-]. apply IH. reflexivity.
  - destruct (Ascii.eqb_spec d c) as [->|]; [|discriminate].
    intros [= <-]. eauto.
Qed.

Lemma strrchr_occurs (s : string) (c : ascii) :
  strrchr s c = None <-> occurs c s = false.
Proof.
  induction s as [|d rest IH]; simpl; [tauto|].
  destruct (strrchr rest c) as [t|].
  - split; [discriminate|]. intros H. apply orb_false_elim in H.
    destruct H as [_ H]. apply IH in H. discriminate.
  - destruct IH as [IH _]. rewrite (IH eq_refl), orb_false_r.
    destruct (Ascii.eqb d c); split; congruence.
Qed.

(** ** Running programs: basic equations *)

Lemma emit_push (x : effect) (s : state) : emit x s = (Ret tt, push x s).
Proof. reflexivity. Qed.

Lemma bind_ret_l {A B} (a : A) (k : A -> M B) (s : state) :
  bind (ret a) k s = k a s.
Proof. reflexivity. Qed.

Lemma bind_emit {B} (x : effect) (k : unit -> M B) (s : state) :
  bind (emit x) k s = k tt (push x s).
Proof. reflexivity. Qed.

Lemma bind_assoc {A B C} (m : M A) (k : A -> M B) (h : B -> M C) (s : state) :
  bind (bind m k) h s = bind m (fun a => bind (k a) h) s.
Proof.
  unfold bind. destruct (m s) as [[a| | |] s']; reflexivity.
Qed.

Lemma bind_ext {A B} (m : M A) (k k' : A -> M B) (s : state) :
  (forall a s', k a s' = k' a s') -> bind m k s = bind m k' s.
Proof.
  intros H. unfold bind. destruct (m s) as [[a| | |] s']; auto.
Qed.

Lemma for_each_app {A} (f : A -> M unit) (l1 l2 : list A) (s : state) :
  for_each f (l1 ++ l2) s = bind (for_each f l1) (fun _ => for_each f l2) s.
Proof.
  revert s. induction l1 as [|a l1 IH]; intros s; simpl.
  - reflexivity.
  - rewrite bind_assoc. apply bind_ext. intros _ s'. apply IH.
Qed.

Lemma bind_for_each_app {A B} (f : A -> M unit) (l1 l2 : list A)
      (k : unit -> M B) (s : state) :
  bind (for_each f (l1 ++ l2)) k s
  = bind (for_each f l1) (fun _ => bind (for_each f l2) k) s.
Proof.
  revert s. induction l1 as [|a l1 IH]; intros s; simpl.
  - reflexivity.
  - rewrite !bind_assoc. apply bind_ext. intros _ s'. apply IH.
Qed.

(** ** The read loop *)

Section ReadLoop.

Variable e : env.
Variables (notifier : Z) (prepend command y_event : string).

(** A read that returns [0] is reported on the standard output and the
    loop goes round again, with no record handled. *)
Lemma watch_loop_zero_read (buf : list byte) (rest : list stimulus)
      (s : state) :
  sc s = true ->
  watch_loop e notifier prepend command y_event
             (ReadReturns 0 buf :: rest) s
  = watch_loop e notifier prepend command y_event rest
      (push (EPrintf Stdout "read() tossed back a 0" [])
            (push (ERead (fd s)) s)).
Proof.
  intros Hsc. cbn [watch_loop]. unfold bind at 1, gets at 1.
  rewrite Hsc. reflexivity.
Qed.

(** Any other return value, positive ones included, takes the [else]
    branch: [perror] and [break]. *)
Lemma watch_loop_nonzero_read (rd : Z) (buf : list byte)
      (rest : list stimulus) (s : state) :
  sc s = true -> rd <> 0 ->
  watch_loop e notifier prepend command y_event
             (ReadReturns rd buf :: rest) s
  = (Ret tt, push (EPerror "Couldn't read event. Reason")
                  (push (ERead (fd s)) s)).
Proof.
  intros Hsc Hrd. cbn [watch_loop]. unfold bind at 1, gets at 1.
  rewrite Hsc. apply Z.eqb_neq in Hrd.
  unfold bind, gets, emit, perror, ret. simpl. rewrite Hrd. reflexivity.
Qed.

End ReadLoop.

(** ** Records in the buffer *)

Lemma length_encode_event (ev : inotify_event) :
  Z.of_nat (length (encode_event ev))
  = sizeof_inotify_event + Z.of_nat (length (ev_name ev)).
Proof.
  unfold encode_event, sizeof_inotify_event.
  rewrite !length_app, !length_le_split. lia.
Qed.

Lemma skipn_exact {A} (pre l : list A) (n : nat) :
  length pre = n -> skipn n (pre ++ l) = l.
Proof.
  intros <-. induction pre as [|a pre IH]; simpl; [reflexivity | exact IH].
Qed.

Lemma firstn_exact {A} (l post : list A) (n : nat) :
  length l = n -> firstn n (l ++ post) = l.
Proof.
  intros <-. induction l as [|a l IH]; simpl.
  - destruct post; reflexivity.
  - f_equal. exact IH.
Qed.

Lemma load32_split (pre post : list byte) (z : Z) (off : nat) :
  length pre = off ->
  load32 (pre ++ le_split 4 z ++ post) off = z mod 2 ^ 32.
Proof.
  intros H. unfold load32.
  rewrite (skipn_exact pre _ off H).
  rewrite firstn_exact by apply length_le_split.
  apply le_combine_split.
Qed.

Lemma signed32_wrap (z : Z) :
  - 2 ^ 31 <= z < 2 ^ 31 -> signed32 (z mod 2 ^ 32) = z.
Proof.
  intros H. unfold signed32.
  destruct (Z_lt_le_dec z 0) as [Hneg|Hpos].
  - replace (z mod 2 ^ 32) with (z + 2 ^ 32).
    + destruct (Z.ltb_spec (z + 2 ^ 32) (2 ^ 31)); lia.
    + apply Z.mod_unique with (q := -1); lia.
  - rewrite Z.mod_small by lia.
    destruct (Z.ltb_spec z (2 ^ 31)); lia.
Qed.

(** Reading the view of a well-formed record where it was stored gives
    the record back. *)
Lemma load_event_encode (pre post : list byte) (ev : inotify_event) :
  wf_event ev ->
  load_event (pre ++ encode_event ev ++ post) (Z.of_nat (length pre))
  = Some ev.
Proof.
  intros (Hwd & Hmask & Hcookie & Hlen & Hname).
  assert (Hlen0 : 0 <= ev_len ev) by lia.
  unfold load_event.
  pose proof (length_encode_event ev) as Hsize.
  assert (Hin : (0 <=? Z.of_nat (length pre)) &&
                (Z.of_nat (length pre) + sizeof_inotify_event
                 <=? Z.of_nat (length (pre ++ encode_event ev ++ post)))
                = true).
  { apply andb_true_intro. split; [apply Z.leb_le; lia|].
    apply Z.leb_le. rewrite !length_app. lia. }
  rewrite Hin, Nat2Z.id. clear Hin Hsize. unfold encode_event.
  set (a := le_split 4 (ev_wd ev)).
  set (b := le_split 4 (ev_mask ev)).
  set (c := le_split 4 (ev_cookie ev)).
  set (d := le_split 4 (ev_len ev)).
  assert (La : length a = 4%nat) by apply length_le_split.
  assert (Lb : length b = 4%nat) by apply length_le_split.
  assert (Lc : length c = 4%nat) by apply length_le_split.
  assert (Ld : length d = 4%nat) by apply length_le_split.
  set (buf := pre ++ (a ++ b ++ c ++ d ++ ev_name ev) ++ post).
  assert (H0 : load32 buf (length pre) = ev_wd ev mod 2 ^ 32).
  { unfold buf. rewrite <- !app_assoc. apply load32_split. reflexivity. }
  assert (H4 : load32 buf (length pre + 4) = ev_mask ev mod 2 ^ 32).
  { replace buf with ((pre ++ a) ++ b ++ (c ++ d ++ ev_name ev ++ post))
      by (unfold buf; rewrite <- !app_assoc; reflexivity).
    apply load32_split. rewrite length_app. lia. }
  assert (H8 : load32 buf (length pre + 8) = ev_cookie ev mod 2 ^ 32).
  { replace buf with ((pre ++ a ++ b) ++ c ++ (d ++ ev_name ev ++ post))
      by (unfold buf; rewrite <- !app_assoc; reflexivity).
    apply load32_split. rewrite !length_app. lia. }
  assert (H12 : load32 buf (length pre + 12) = ev_len ev mod 2 ^ 32).
  { replace buf with ((pre ++ a ++ b ++ c) ++ d ++ (ev_name ev ++ post))
      by (unfold buf; rewrite <- !app_assoc; reflexivity).
    apply load32_split. rewrite !length_app. lia. }
  assert (Hn : firstn (Z.to_nat (ev_len ev)) (skipn (length pre + 16) buf)
               = ev_name ev).
  { replace buf with ((pre ++ a ++ b ++ c ++ d) ++ ev_name ev ++ post)
      by (unfold buf; rewrite <- !app_assoc; reflexivity).
    rewrite skipn_exact by (rewrite !length_app; lia).
    apply firstn_exact. lia. }
  rewrite H0, H4, H8, H12.
  rewrite signed32_wrap by assumption.
  rewrite !Z.mod_small by lia.
  rewrite Hn. destruct ev; reflexivity.
Qed.

(** The name length read from a header is never negative. *)
Lemma load_event_len (buf : list byte) (p : Z) (ev : inotify_event) :
  load_event buf p = Some ev -> 0 <= ev_len ev.
Proof.
  unfold load_event.
  destruct ((0 <=? p) && _); [|discriminate].
  intros [= <-]. simpl. unfold load32.
  apply le_combine_bound.
Qed.

(** ** The decoding loop *)

Section EventLoop.

Variable e : env.
Variables (notifier : Z) (prepend command y_event : string).

Local Abbreviation loop fuel buf rd p :=
  (event_loop e fuel notifier prepend command y_event buf rd p).

Local Abbreviation on_record :=
  (handle e notifier prepend command y_event).

Lemma event_loop_done (fuel : nat) (buf : list byte) (rd p : Z) (s : state) :
  rd <= p -> loop fuel buf rd p s = (Ret p, s).
Proof.
  intros H. destruct fuel; simpl;
    destruct (Z.ltb_spec p rd); try lia; reflexivity.
Qed.

Lemma event_loop_step (fuel : nat) (buf : list byte) (rd p : Z)
      (ev : inotify_event) (s : state) :
  p < rd -> load_event buf p = Some ev ->
  loop (S fuel) buf rd p s
  = bind (on_record ev)
      (fun _ => loop fuel buf rd (p + sizeof_inotify_event + ev_len ev)) s.
Proof.
  intros Hp Hev. simpl.
  destruct (Z.ltb_spec p rd); [|lia].
  unfold handle, deref_event. rewrite Hev. reflexivity.
Qed.

(** The loop never stops for lack of fuel: every iteration moves [p] at
    least [sizeof (struct inotify_event)] further, so [rd - p] iterations
    are more than it can make. *)
Lemma event_loop_fuel (buf : list byte) (rd : Z) (f1 : nat) :
  forall (f2 : nat) (p : Z) (s : state),
    (Z.to_nat (rd - p) <= f1)%nat -> (Z.to_nat (rd - p) <= f2)%nat ->
    loop f1 buf rd p s = loop f2 buf rd p s.
Proof.
  induction f1 as [|f1 IH]; intros f2 p s H1 H2.
  - rewrite !event_loop_done by lia. reflexivity.
  - destruct (Z_lt_le_dec p rd) as [Hp|Hp].
    2:{ rewrite !event_loop_done by lia. reflexivity. }
    destruct f2 as [|f2]; [lia|].
    destruct (load_event buf p) as [ev|] eqn:Hev.
    + rewrite !(event_loop_step _ _ _ _ ev) by assumption.
      apply bind_ext. intros _ s'.
      pose proof (load_event_len _ _ _ Hev).
      unfold sizeof_inotify_event. apply IH; lia.
    + simpl. destruct (Z.ltb_spec p rd); [|lia].
      unfold deref_event. rewrite Hev. reflexivity.
Qed.

(** When the loop returns, its cursor has reached [rd]. *)
Lemma event_loop_cursor (buf : list byte) (rd : Z) (fuel : nat) :
  forall (p c : Z) (s s' : state),
    (Z.to_nat (rd - p) <= fuel)%nat ->
    loop fuel buf rd p s = (Ret c, s') -> rd <= c.
Proof.
  induction fuel as [|fuel IH]; intros p c s s' Hf H.
  - rewrite event_loop_done in H by lia. injection H as <- _. lia.
  - destruct (Z_lt_le_dec p rd) as [Hp|Hp].
    2:{ rewrite event_loop_done in H by lia. injection H as <- _. lia. }
    destruct (load_event buf p) as [ev|] eqn:Hev.
    + rewrite (event_loop_step _ _ _ _ ev) in H by assumption.
      unfold bind in H.
      destruct (on_record ev s) as [[[]| | |] s1]; try discriminate.
      pose proof (load_event_len _ _ _ Hev).
      unfold sizeof_inotify_event in H. eapply IH; [|exact H]. lia.
    + simpl in H. destruct (Z.ltb_spec p rd); [|lia].
      unfold deref_event in H. rewrite Hev in H. discriminate.
Qed.

Lemma length_pack_cons (ev : inotify_event) (evs : list inotify_event) :
  Z.of_nat (length (pack (ev :: evs)))
  = sizeof_inotify_event + Z.of_nat (length (ev_name ev))
    + Z.of_nat (length (pack evs)).
Proof.
  unfold pack. cbn [flat_map].
  rewrite length_app, Nat2Z.inj_add, length_encode_event. reflexivity.
Qed.

Lemma length_pack_lower (evs : list inotify_event) :
  sizeof_inotify_event * Z.of_nat (length evs) <= Z.of_nat (length (pack evs)).
Proof.
  induction evs as [|ev evs IH].
  - simpl. lia.
  - rewrite length_pack_cons. simpl length.
    unfold sizeof_inotify_event in *. lia.
Qed.

(** Records stored back to back from the cursor on, all of them inside
    the valid bytes, are handled one after the other, in order, and the
    cursor comes to stand right behind the last of them. *)
Lemma event_loop_pack (evs : list inotify_event) :
  Forall wf_event evs ->
  forall (pre post : list byte) (rd : Z) (fuel : nat) (s : state),
    Z.of_nat (length pre) + Z.of_nat (length (pack evs)) <= rd ->
    (Z.to_nat (rd - Z.of_nat (length pre)) <= fuel)%nat ->
    loop fuel (pre ++ pack evs ++ post) rd (Z.of_nat (length pre)) s
    = bind (for_each on_record evs)
        (fun _ => loop fuel (pre ++ pack evs ++ post) rd
                    (Z.of_nat (length pre) + Z.of_nat (length (pack evs)))) s.
Proof.
  induction 1 as [|ev evs Hev Hevs IH]; intros pre post rd fuel s Hrd Hfuel.
  - simpl. rewrite Z.add_0_r. reflexivity.
  - rewrite length_pack_cons in *.
    pose proof (length_pack_lower evs) as Hlow.
    assert (Hlen : ev_len ev = Z.of_nat (length (ev_name ev)))
      by (destruct Hev as (_ & _ & _ & _ & H); exact H).
    unfold sizeof_inotify_event in *.
    destruct fuel as [|fuel]; [lia|].
    assert (Hload : load_event (pre ++ pack (ev :: evs) ++ post)
                      (Z.of_nat (length pre)) = Some ev).
    { unfold pack. cbn [flat_map]. rewrite <- app_assoc.
      apply load_event_encode. exact Hev. }
    rewrite (event_loop_step _ _ _ _ ev) by (assumption || lia).
    cbn [for_each]. rewrite bind_assoc. apply bind_ext. intros _ s'.
    rewrite (event_loop_fuel _ _ fuel (S fuel))
      by (unfold sizeof_inotify_event; lia).
    replace (pre ++ pack (ev :: evs) ++ post)
      with ((pre ++ encode_event ev) ++ pack evs ++ post)
      by (unfold pack; cbn [flat_map]; rewrite <- !app_assoc; reflexivity).
    replace (Z.of_nat (length pre) + sizeof_inotify_event + ev_len ev)
      with (Z.of_nat (length (pre ++ encode_event ev)))
      by (rewrite length_app, Nat2Z.inj_add, length_encode_event;
          unfold sizeof_inotify_event; lia).
    rewrite IH.
    + apply bind_ext. intros _ s''. f_equal.
      rewrite length_app, Nat2Z.inj_add, length_encode_event.
      unfold sizeof_inotify_event. lia.
    + rewrite length_app, Nat2Z.inj_add, length_encode_event.
      unfold sizeof_inotify_event. lia.
    + rewrite length_app, Nat2Z.inj_add, length_encode_event.
      unfold sizeof_inotify_event. lia.
Qed.

End EventLoop.

(** ** Decoder offset law (C4) *)

Lemma round_up_multiple (align z : Z) :
  0 < align -> (align | z) -> round_up align z = z.
Proof.
  intros Ha [k ->]. unfold round_up.
  replace (k * align + align - 1) with ((align - 1) + k * align) by lia.
  rewrite Z.div_add by lia. rewrite Z.div_small by lia. lia.
Qed.

(** Where every name length is a multiple of the alignment, and the
    header size is one too, the two steps and the two layouts agree. *)
Lemma advance_aligned (align p len : Z) :
  0 < align -> (align | sizeof_inotify_event) -> (align | len) ->
  spec_advance align p len = code_advance p len.
Proof.
  intros Ha Hh Hl. unfold spec_advance, code_advance.
  rewrite round_up_multiple; [lia | assumption | apply Z.divide_add_r; assumption].
Qed.

Lemma pack_padded_aligned (align : Z) (evs : list inotify_event) :
  0 < align -> (align | sizeof_inotify_event) ->
  Forall (fun ev => (align | ev_len ev)) evs ->
  pack_padded align evs = pack evs.
Proof.
  intros Ha Hh. induction 1 as [|ev evs Hev _ IH]; [reflexivity|].
  unfold pack_padded, pack in *. cbn [flat_map]. rewrite IH. f_equal.
  unfold encode_padded.
  rewrite round_up_multiple, Z.sub_diag by
      (assumption || apply Z.divide_add_r; assumption).
  apply app_nil_r.
Qed.

(** N well-formed records stored back to back, each taking its header and
    exactly [len] bytes, in a buffer whose valid length [n] is their total
    size.  The single forward pass, whose step is [header_size + len] with
    no rounding, handles exactly these N records in their order and ends
    with the cursor exactly at [n]. *)
Lemma packed_records_decoded_in_order
        (e : env) (notifier : Z) (prepend command y_event : string)
        (evs : list inotify_event) (slack : list byte) (s : state) :
  Forall wf_event evs ->
  event_loop e (Z.to_nat (Z.of_nat (length (pack evs))))
             notifier prepend command y_event
             (pack evs ++ slack) (Z.of_nat (length (pack evs))) 0 s
  = bind (for_each (handle e notifier prepend command y_event) evs)
         (fun _ => ret (Z.of_nat (length (pack evs)))) s.
Proof.
  intros Hwf.
  change (pack evs ++ slack) with ([] ++ pack evs ++ slack).
  change 0 with (Z.of_nat (length (@nil byte))) at 1.
  rewrite event_loop_pack by (assumption || simpl; lia).
  apply bind_ext. intros _ s'. apply event_loop_done. simpl. lia.
Qed.

Lemma packed_records_decoded_in_order_witness :
  Forall wf_event [ev_open; event_of_mask 2 name3; event_of_mask 512 name5] /\
  event_loop (demo_env execute_rule 0 0 3)
    (Z.to_nat (Z.of_nat (length
       (pack [ev_open; event_of_mask 2 name3; event_of_mask 512 name5]))))
    0 "execute" "ls -la" "IN_MODIFY"
    (pack [ev_open; event_of_mask 2 name3; event_of_mask 512 name5]
       ++ repeat Byte.x00 8)
    (Z.of_nat (length
       (pack [ev_open; event_of_mask 2 name3; event_of_mask 512 name5])))
    0 initial
  = bind (for_each
            (handle (demo_env execute_rule 0 0 3) 0 "execute" "ls -la"
                    "IN_MODIFY")
            [ev_open; event_of_mask 2 name3; event_of_mask 512 name5])
         (fun _ => ret (Z.of_nat (length
            (pack [ev_open; event_of_mask 2 name3; event_of_mask 512 name5]))))
         initial.
Proof.
  assert (H : Forall wf_event
                [ev_open; event_of_mask 2 name3; event_of_mask 512 name5])
    by (repeat constructor; simpl; lia).
  split; [exact H|].
  apply (packed_records_decoded_in_order _ _ _ _ _ _ _ _ H).
Defined.

(** The rounded steps over records with aligned lengths end where the
    records stored back to back end. *)
Lemma spec_cursor_aligned (align : Z) (evs : list inotify_event) :
  0 < align -> (align | sizeof_inotify_event) ->
  Forall wf_event evs -> Forall (fun ev => (align | ev_len ev)) evs ->
  forall p,
    fold_left (fun p ev => spec_advance align p (ev_len ev)) evs p
    = p + Z.of_nat (length (pack evs)).
Proof.
  intros Ha Hh Hwf. induction Hwf as [|ev evs Hev _ IH]; intros Hal p.
  - simpl. lia.
  - inversion Hal as [|? ? Hd Hal']; subst.
    cbn [fold_left]. rewrite IH by assumption.
    rewrite advance_aligned by assumption. unfold code_advance.
    rewrite length_pack_cons.
    destruct Hev as (_ & _ & _ & _ & Hlen). lia.
Qed.

(** C4.  The decoder offset law for the pass of [main.c] 240-289 over
    records as inotify writes them: N well-formed records of varying name
    lengths, each length a multiple of the alignment (the length field
    counts the padding of the name), laid out as the specification words
    it in a buffer whose valid length [n] is exactly their size.  The
    single forward pass handles exactly these N records, in their order,
    and ends with the cursor exactly at [n]; its step
    [sizeof (struct inotify_event) + len] is the step
    [header_size + length] rounded to the alignment, so [n] is where the
    rounded steps end as well. *)
Theorem aligned_records_decoded_in_order
        (align : Z) (e : env) (notifier : Z)
        (prepend command y_event : string)
        (evs : list inotify_event) (slack : list byte) (s : state) :
  0 < align -> (align | sizeof_inotify_event) ->
  Forall wf_event evs ->
  Forall (fun ev => (align | ev_len ev)) evs ->
  event_loop e (Z.to_nat (Z.of_nat (length (pack_padded align evs))))
             notifier prepend command y_event
             (pack_padded align evs ++ slack)
             (Z.of_nat (length (pack_padded align evs))) 0 s
  = bind (for_each (handle e notifier prepend command y_event) evs)
         (fun _ => ret (Z.of_nat (length (pack_padded align evs)))) s /\
  Z.of_nat (length (pack_padded align evs)) = spec_cursor align evs.
Proof.
  intros Ha Hh Hwf Hal.
  rewrite (pack_padded_aligned align evs Ha Hh Hal). split.
  - change (pack evs ++ slack) with ([] ++ pack evs ++ slack).
    change 0 with (Z.of_nat (length (@nil byte))) at 1.
    rewrite event_loop_pack by (assumption || simpl; lia).
    apply bind_ext. intros _ s'. apply event_loop_done. simpl. lia.
  - unfold spec_cursor.
    rewrite (spec_cursor_aligned align evs Ha Hh Hwf Hal 0). lia.
Qed.

Lemma aligned_records_decoded_in_order_witness :
  0 < 4 /\ (4 | sizeof_inotify_event) /\
  Forall wf_event kernel_events /\
  Forall (fun ev => (4 | ev_len ev)) kernel_events /\
  event_loop (demo_env execute_rule 0 0 3)
             (Z.to_nat (Z.of_nat (length (pack_padded 4 kernel_events))))
             0 "execute" "ls -la" "IN_MODIFY"
             (pack_padded 4 kernel_events ++ [])
             (Z.of_nat (length (pack_padded 4 kernel_events))) 0 initial
  = bind (for_each (handle (demo_env execute_rule 0 0 3) 0 "execute" "ls -la"
                           "IN_MODIFY") kernel_events)
         (fun _ => ret (Z.of_nat (length (pack_padded 4 kernel_events))))
         initial /\
  Z.of_nat (length (pack_padded 4 kernel_events)) = spec_cursor 4 kernel_events.
Proof.
  assert (H1 : 0 < 4) by lia.
  assert (H2 : (4 | sizeof_inotify_event)) by (exists 4; reflexivity).
  assert (H3 : Forall wf_event kernel_events)
    by (repeat constructor; simpl; lia).
  assert (H4 : Forall (fun ev => (4 | ev_len ev)) kernel_events)
    by (repeat constructor;
        [exists 0 | exists 4 | exists 8]; reflexivity).
  split; [exact H1|]. split; [exact H2|]. split; [exact H3|].
  split; [exact H4|].
  exact (aligned_records_decoded_in_order 4 (demo_env execute_rule 0 0 3) 0
           "execute" "ls -la" "IN_MODIFY" kernel_events [] initial
           H1 H2 H3 H4).
Defined.

(** The hypothesis on the lengths is needed.  A record whose length field
    is [1], with three bytes of padding the field does not count (a layout
    inotify does not write), followed by a second record, in a buffer of 64
    bytes of which the first [n = 36] are valid: the pass of the code, which
    does not round, reads a second header at offset 17 and a third at
    offset 33, and ends at 49. *)
Lemma padded_records_misdecoded :
  let evs := [event_of_mask 32 [Byte.x61]; ev_modify] in
  let n := Z.of_nat (length (pack_padded 4 evs)) in
  let buf := buffer 64 (pack_padded 4 evs) in
  let run := event_loop (demo_env execute_rule 0 0 3) (Z.to_nat n)
                        0 "execute" "ls -la" "IN_MODIFY" buf n 0 initial in
  Forall wf_event evs /\
  n = spec_advance 4 (spec_advance 4 0 1) 0 /\
  run <> bind (for_each (handle (demo_env execute_rule 0 0 3) 0 "execute"
                                "ls -la" "IN_MODIFY") evs)
              (fun _ => ret n) initial /\
  fst run = Ret 49 /\
  count is_event_line (trace (snd run)) = 3%nat.
Proof.
  split; [repeat constructor; simpl; lia|].
  split; [reflexivity|].
  split; [intros H; vm_compute in H; discriminate H|].
  split; vm_compute; reflexivity.
Qed.

(** ** Truncated tail (C3) *)



(** The loop by itself on that buffer: with 36 valid bytes, of which the
    last 20 are the cut record, it does not fail, it ends normally at
    offset 40, and the name of the cut record is printed and its action
    run like that of the whole one before it. *)
Example truncated_tail_not_rejected :
  let buf := pack [ev_open] ++ buffer 48 (encode_event cut_event) in
  let run := event_loop (demo_env execute_rule 0 0 3) (Z.to_nat 36)
                        0 "execute" "ls -la" "IN_MODIFY" buf 36 0 initial in
  fst run = Ret 40 /\
  filter is_event_line (history (snd run))
  = [EPrintf Stdout "%s event ocurred\n" [AStr "IN_OPEN"];
     EPrintf Stdout "%s event ocurred\n" [AStr "IN_MODIFY"]] /\
  filter is_system (history (snd run)) = [ESystem "ls -la"].
Proof.
  repeat split; vm_compute; reflexivity.
Qed.


(** ** The trace only grows *)

Lemma extends_refl (s : state) : extends s s.
Proof. exists []. reflexivity. Qed.

Lemma extends_trans (s1 s2 s3 : state) :
  extends s1 s2 -> extends s2 s3 -> extends s1 s3.
Proof.
  intros [l1 H1] [l2 H2]. exists (l2 ++ l1).
  rewrite H2, H1. apply app_assoc.
Qed.

Lemma grows_ret {A} (a : A) : grows (ret a).
Proof. intros s. apply extends_refl. Qed.

Lemma grows_emit (x : effect) : grows (emit x).
Proof. intros s. exists [x]. reflexivity. Qed.

Lemma grows_same_trace {A} (m : M A) :
  (forall s, trace (snd (m s)) = trace s) -> grows m.
Proof. intros H s. exists []. apply H. Qed.

Lemma grows_bind {A B} (m : M A) (k : A -> M B) :
  grows m -> (forall a, grows (k a)) -> grows (bind m k).
Proof.
  intros Hm Hk s. unfold bind. specialize (Hm s).
  destruct (m s) as [[a| | |] s']; cbn [snd] in *; try assumption.
  eapply extends_trans; [exact Hm | apply Hk].
Qed.

Lemma grows_cleanup : grows cleanup.
Proof.
  unfold cleanup. apply grows_bind; [apply grows_same_trace; reflexivity|].
  intros fd_. apply grows_bind; [apply grows_same_trace; reflexivity|].
  intros wd_. apply grows_emit.
Qed.

Lemma grows_run_atexit (hs : list handler) : grows (run_atexit hs).
Proof.
  induction hs as [|[] hs IH]; simpl.
  - apply grows_ret.
  - apply grows_bind; [apply grows_cleanup | intros _; exact IH].
Qed.

Lemma grows_exit {A} (status : Z) : grows (@exit A status).
Proof. intros s. unfold exit. cbn [snd]. apply grows_run_atexit. Qed.

Create HintDb grows.
#[local] Hint Resolve grows_ret grows_emit grows_exit grows_cleanup : grows.

Lemma grows_dispatch (e : env) (prepend command y_event ltime evname : string) :
  grows (dispatch e prepend command y_event ltime evname).
Proof.
  unfold dispatch, perror.
  repeat match goal with
         | |- grows (if ?c then _ else _) => destruct c
         | |- grows (bind _ _) => apply grows_bind; [|intros ?]
         end; auto with grows.
Qed.

Ltac grows_step :=
  match goal with
  | |- grows (bind _ _) => apply grows_bind; [|intros ?]
  | |- grows (ret _) => apply grows_ret
  | |- grows (emit _) => apply grows_emit
  | |- grows (gets _) => apply grows_same_trace; reflexivity
  | |- grows (set_sc _) => apply grows_same_trace; reflexivity
  | |- grows (raise_fault _) => apply grows_same_trace; reflexivity
  | |- grows (exit _) => apply grows_exit
  | |- grows cleanup => apply grows_cleanup
  | |- grows (if ?c then _ else _) => destruct c
  | |- grows (match ?x with _ => _ end) => destruct x
  end.

Ltac grows_auto :=
  unfold usage, printf, fprintf, perror, log_debug, log_info, log_warn;
  repeat grows_step.

Section Growth.

Variable e : env.
Variables (notifier : Z) (prepend command y_event : string).

Lemma grows_catch_sig {A} (sig : Z) : grows (@catch_sig A sig).
Proof. unfold catch_sig. grows_auto. Qed.

Lemma grows_on_event (ev : inotify_event) :
  grows (on_event e notifier prepend command y_event ev).
Proof. unfold on_event. grows_auto; apply grows_dispatch. Qed.

Lemma grows_event_loop (buf : list byte) (rd : Z) (fuel : nat) :
  forall p,
    grows (event_loop e fuel notifier prepend command y_event buf rd p).
Proof.
  induction fuel as [|fuel IH]; intros p; cbn [event_loop].
  - grows_auto.
  - unfold deref_event. grows_auto; try apply grows_on_event; apply IH.
Qed.

Lemma grows_watch_loop (inputs : list stimulus) :
  grows (watch_loop e notifier prepend command y_event inputs).
Proof.
  induction inputs as [|i inputs IH]; cbn [watch_loop].
  - grows_auto. apply grows_same_trace. reflexivity.
  - grows_auto; try apply grows_event_loop; try apply grows_catch_sig;
      apply IH.
Qed.

(** Once started with [sc] set, the loop calls [read] on the descriptor
    in [fd], whatever that is. *)
Lemma watch_loop_reads (inputs : list stimulus) (s : state) :
  sc s = true ->
  In (ERead (fd s))
     (trace (snd (watch_loop e notifier prepend command y_event inputs s))).
Proof.
  intros Hsc.
  assert (H : exists m : M unit,
             grows m /\
             watch_loop e notifier prepend command y_event inputs s
             = m (push (ERead (fd s)) s)).
  { destruct inputs as [|[rd buf|] inputs]; cbn [watch_loop];
      unfold bind at 1, gets at 1; rewrite Hsc;
      unfold bind at 1, gets at 1; rewrite bind_emit;
      eexists; (split; [|reflexivity]).
    - apply grows_same_trace. reflexivity.
    - grows_auto; try apply grows_event_loop; apply grows_watch_loop.
    - apply grows_catch_sig. }
  destruct H as (m & Hm & ->).
  destruct (Hm (push (ERead (fd s)) s)) as [later ->].
  apply in_or_app. right. left. reflexivity.
Qed.

End Growth.

(** ** Dispatch (C2) and the event line *)

Section Dispatch.

Variable e : env.

Lemma strcmp_neq (a b : string) : a <> b -> (strcmp a b =? 0) = false.
Proof.
  intros H. apply Z.eqb_neq. intros H0. apply H, strcmp_eq, H0.
Qed.

Lemma strcmp_same (a : string) : (strcmp a a =? 0) = true.
Proof. rewrite strcmp_refl. reflexivity. Qed.

(** In execute mode an event other than the configured one does nothing. *)
Lemma dispatch_execute_other (command y_event ltime evname : string)
      (s : state) :
  y_event <> evname ->
  dispatch e "execute" command y_event ltime evname s = (Ret tt, s).
Proof.
  intros H. unfold dispatch. rewrite (strcmp_neq _ _ H).
  reflexivity.
Qed.

(** In execute mode the configured event runs the command, once. *)
Lemma dispatch_execute_match (command y_event ltime : string) (s : state) :
  dispatch e "execute" command y_event ltime y_event s
  = (Ret tt, push (ESystem command) s).
Proof.
  unfold dispatch. rewrite (strcmp_same y_event). reflexivity.
Qed.

(** In log mode the configured event is not looked at: every event is
    written to the log file. *)
Lemma dispatch_log_any (command y_event ltime evname : string) (s : state) :
  malloc_ok e = true ->
  0 <= flag (create_file e command
               (Some (ltime ++ evname ++ newline)%string)) ->
  dispatch e "log" command y_event ltime evname s
  = (Ret tt,
     push (ECreateFile command (Some (ltime ++ evname ++ newline)%string)) s).
Proof.
  intros Hm Hf. unfold dispatch.
  change (strcmp "log" "execute" =? 0) with false.
  change (strcmp "log" "log" =? 0) with true.
  cbn [andb]. rewrite Hm. rewrite bind_emit.
  destruct (Z.ltb_spec (flag (create_file e command
    (Some (ltime ++ evname ++ newline)%string))) 0); [lia|reflexivity].
Qed.

(** For every record the body of the loop handles, the line
    ["<event> event ocurred"] with the name [get_event] gives is printed
    on the standard output, before anything else the body prints or does
    for the record, whatever the mode, the configured event and the
    notifier flag are. *)
Lemma event_line_always_printed
        (notifier : Z) (prepend command y_event : string)
        (ev : inotify_event) (s : state) :
  exists later : list effect,
    trace (snd (on_event e notifier prepend command y_event ev s))
    = later ++ EPrintf Stdout "%s event ocurred\n" [AStr (get_event e ev)]
               :: trace s.
Proof.
  unfold on_event, printf. rewrite bind_emit.
  match goal with
  | |- context [snd (?m ?s1)] =>
      assert (H : grows m); [|exact (H s1)]
  end.
  unfold log_debug.
  apply grows_bind; [apply grows_emit|intros _].
  apply grows_bind; [|intros _; apply grows_dispatch].
  destruct (notifier =? 0); auto with grows.
Qed.

End Dispatch.

(** Execute mode on the records Open, Modify, Delete with Modify
    configured: the command is run once, for Modify. *)
Example execute_mode_selective :
  let e := demo_env execute_rule 0 0 3 in
  let buf := buffer 64 (pack [ev_open; ev_modify; ev_delete]) in
  let run := event_loop e (Z.to_nat 48) 0 "execute" "ls -la" "IN_MODIFY"
                        buf 48 0 initial in
  fst run = Ret 48 /\
  filter (fun x => is_system x || is_event_line x) (history (snd run))
  = [EPrintf Stdout "%s event ocurred\n" [AStr "IN_OPEN"];
     EPrintf Stdout "%s event ocurred\n" [AStr "IN_MODIFY"];
     ESystem "ls -la";
     EPrintf Stdout "%s event ocurred\n" [AStr "IN_DELETE"]].
Proof. split; vm_compute; reflexivity. Qed.

(** C2 at a concrete input: log mode, [IN_MODIFY] configured, the records
    Open, Modify, Delete in one buffer.  The log file is written three
    times, for Open and Delete as well as for Modify; the test on the
    configured event guards the [system] call only. *)
Theorem log_mode_ignores_trigger :
  let e := demo_env log_rule 0 0 3 in
  let buf := buffer 64 (pack [ev_open; ev_modify; ev_delete]) in
  let run := event_loop e (Z.to_nat 48) 0 "log" "/tmp/fileguard.log"
                        (event log_rule) buf 48 0 initial in
  strtok (action log_rule) " " = (Some "log", "/tmp/fileguard.log") /\
  event log_rule = "IN_MODIFY" /\
  fst run = Ret 48 /\
  filter is_create_file (history (snd run))
  = [ECreateFile "/tmp/fileguard.log"
       (Some (asctime_now e ++ "IN_OPEN" ++ newline)%string);
     ECreateFile "/tmp/fileguard.log"
       (Some (asctime_now e ++ "IN_MODIFY" ++ newline)%string);
     ECreateFile "/tmp/fileguard.log"
       (Some (asctime_now e ++ "IN_DELETE" ++ newline)%string)].
Proof. repeat split; vm_compute; reflexivity. Qed.

(** ** Positive reads (C1) *)

(** C1 at a concrete input: the configuration is [execute "ls -la"] on
    [IN_MODIFY]; the first read returns 16 bytes, one [IN_MODIFY] record,
    and a second read is available.  The process takes the [else] branch
    of [if (rd == 0)]: it reports a read error, leaves the loop and exits
    with [EXIT_SUCCESS]; no record is handled, the command is not run, and
    [read] is not called a second time. *)
Theorem positive_read_ends_watching :
  let run := main (demo_env execute_rule 0 0 3) ["fileguard"; "conf.yaml"]
                  [ReadReturns 16 (buffer 64 (encode_event ev_modify));
                   ReadReturns 0 (buffer 64 [])] initial in
  fst run = Exited EXIT_SUCCESS /\
  skipn 11 (history (snd run))
  = [EInotifyInit; EInotifyAddWatch 3 "/tmp/watched" IN_ALL_EVENTS; ERead 3;
     EPerror "Couldn't read event. Reason"; EInotifyRmWatch 3 1] /\
  count is_event_line (history (snd run)) = 0%nat /\
  count is_system (history (snd run)) = 0%nat /\
  count is_read (history (snd run)) = 1%nat.
Proof. repeat split; vm_compute; reflexivity. Qed.

(** A read of [0] bytes, by contrast, is reported and the loop goes on:
    here through two such reads to a third call of [read]. *)
Example zero_reads_keep_watching :
  let run := main (demo_env execute_rule 0 0 3) ["fileguard"; "conf.yaml"]
                  [ReadReturns 0 (buffer 64 []); ReadReturns 0 (buffer 64 [])]
                  initial in
  fst run = Blocked /\
  skipn 13 (history (snd run))
  = [ERead 3; EPrintf Stdout "read() tossed back a 0" [];
     ERead 3; EPrintf Stdout "read() tossed back a 0" [];
     ERead 3].
Proof. split; vm_compute; reflexivity. Qed.

(** ** Failure to initialise inotify (C5) *)

(** Whatever [inotify_init] and [inotify_add_watch] return, failures
    included, a configuration whose action splits into a mode and a
    target takes [main] into the read loop: [read] is called on the
    value [inotify_init] returned. *)
Lemma watch_reads_whatever_init
      (e : env) (notifier : Z) (y : yaml_t) (inputs : list stimulus)
      (prepend saved command rest : string) (s : state) :
  sc s = true ->
  strtok (action y) " " = (Some prepend, saved) ->
  strtok saved dquote = (Some command, rest) ->
  In (ERead (inotify_init e)) (trace (snd (watch e notifier y inputs s))).
Proof.
  intros Hsc Hp Hc. unfold watch.
  rewrite bind_emit. unfold bind at 1, set_fd at 1.
  unfold bind at 1, gets at 1. cbn [fd].
  set (fd_ := inotify_init e).
  assert (H : forall (m : M unit) (k : unit -> M unit) (s0 : state),
             (forall s1, sc s1 = true -> fd s1 = fd_ ->
                         In (ERead fd_) (trace (snd (k tt s1)))) ->
             sc s0 = true -> fd s0 = fd_ ->
             (m = ret tt \/ exists x, m = emit x) ->
             In (ERead fd_) (trace (snd (bind m k s0)))).
  { intros m k s0 Hk Hs0 Hf [-> | [x ->]].
    - rewrite bind_ret_l. apply Hk; assumption.
    - rewrite bind_emit. apply Hk; assumption. }
  apply H; [|exact Hsc|reflexivity|
            destruct (fd_ <? 0); [right; eexists; reflexivity|left; reflexivity]].
  intros s1 Hs1 Hf1. rewrite bind_emit.
  unfold bind at 1, set_wd at 1. unfold bind at 1, gets at 1. cbn [wd].
  apply H; [|exact Hs1|exact Hf1|
            destruct (_ <? 0); [right; eexists; unfold perror; reflexivity
                               |left; reflexivity]].
  intros s2 Hs2 Hf2. rewrite Hp, Hc.
  pose proof (watch_loop_reads e notifier prepend command (event y) inputs
                               s2 Hs2) as Hread.
  rewrite Hf2 in Hread.
  unfold bind.
  destruct (watch_loop e notifier prepend command (event y) inputs s2)
    as [[[]| | |] s3]; cbn [snd] in *; try exact Hread.
  destruct (grows_exit (A := unit) EXIT_SUCCESS s3) as [later ->].
  apply in_or_app. right. exact Hread.
Qed.

(** C5 at a concrete input: [inotify_init] fails with [-1] (and
    [inotify_add_watch] on that descriptor fails as well).  Both failures
    are reported with [perror], and the process goes on into the read
    loop: [read] is called on descriptor [-1]. *)
Theorem init_failure_reaches_read_loop :
  let run := main (demo_env execute_rule 0 0 (-1)) ["fileguard"; "conf.yaml"]
                  [ReadReturns (-1) (buffer 64 [])] initial in
  fst run = Exited EXIT_SUCCESS /\
  skipn 11 (history (snd run))
  = [EInotifyInit; EPerror "Could not initialize inotify. Reason";
     EInotifyAddWatch (-1) "/tmp/watched" IN_ALL_EVENTS;
     EPerror "Could not add watch. Reason";
     ERead (-1);
     EPerror "Couldn't read event. Reason";
     EInotifyRmWatch (-1) (-1)].
Proof. split; vm_compute; reflexivity. Qed.

(** The other start-up failures do end the process at once: a failed
    permission check exits with [EXIT_FAILURE] before [inotify_init]. *)
Example permission_failure_exits :
  let e := demo_env execute_rule 0 0 3 in
  let e' := {| CONFIG_FILE := CONFIG_FILE e; getopt := getopt e;
               stack_verbose := 0; stack_notifier := 0;
               file_check := file_check e; create_file := create_file e;
               parse_yaml_config := parse_yaml_config e;
               check_inode_permissions := fun _ => -1;
               inotify_init := 3; inotify_add_watch := inotify_add_watch e;
               get_event := get_event e; asctime_now := asctime_now e;
               malloc_ok := true |} in
  let run := main e' ["fileguard"; "conf.yaml"]
                  [ReadReturns 0 (buffer 64 [])] initial in
  fst run = Exited EXIT_FAILURE /\
  count is_read (history (snd run)) = 0%nat /\
  existsb (fun x => match x with EInotifyInit => true | _ => false end)
          (history (snd run)) = false.
Proof. repeat split; vm_compute; reflexivity. Qed.

(** ** Choice of the configuration file (C7) *)

(** The suffix [strrchr] returns starts with the dot, so it never equals
    ["yaml"]: the check holds exactly when the argument has a dot in it. *)
Lemma extension_check_dot (a : string) :
  extension_check a = occurs "." a.
Proof.
  unfold extension_check.
  destruct (strrchr a ".") as [dot|] eqn:Hdot.
  - destruct (strrchr_head _ _ _ Hdot) as [u ->].
    destruct (occurs "." a) eqn:Hocc.
    + reflexivity.
    + apply strrchr_occurs in Hocc. congruence.
  - symmetry. apply strrchr_occurs. exact Hdot.
Qed.

(** The default is chosen exactly for a first argument without a dot. *)
Lemma select_yaml_result (e : env) (a : string) (rest : list string)
      (s : state) :
  fst (select_yaml e (a :: rest) s)
  = Ret (Some (if occurs "." a then a else CONFIG_FILE e)).
Proof.
  unfold select_yaml. rewrite extension_check_dot.
  destruct (occurs "." a); reflexivity.
Qed.

(** C7 at a concrete input: the argument ["notes.txt"] does not end in
    [.yaml], yet the check holds for it and it is taken as the
    configuration file, not the default [CONFIG_FILE]. *)
Theorem other_extension_is_accepted :
  let e := demo_env execute_rule 0 0 3 in
  let run := main e ["fileguard"; "notes.txt"] [] initial in
  extension_check "notes.txt" = true /\
  select_yaml e ["notes.txt"] initial
  = (Ret (Some "notes.txt"),
     push (ELog LInfo "yaml file: %s" [AStr "notes.txt"]) initial) /\
  nth_error (history (snd run)) 3 = Some (EFileCheck "notes.txt") /\
  count (fun x => match x with
                  | EFileCheck path => String.eqb path (CONFIG_FILE e)
                  | _ => false
                  end) (history (snd run)) = 0%nat.
Proof. repeat split; vm_compute; reflexivity. Qed.

(** An argument without any dot falls back to the default, and so does
    nothing else: ["conf.yaml"] and ["notes.txt"] are both taken. *)
Example no_dot_falls_back :
  let e := demo_env execute_rule 0 0 3 in
  fst (select_yaml e ["config"] initial) = Ret (Some (CONFIG_FILE e)) /\
  fst (select_yaml e ["conf.yaml"] initial) = Ret (Some "conf.yaml") /\
  fst (select_yaml e [] initial) = Ret None.
Proof. repeat split; vm_compute; reflexivity. Qed.

(** ** Validation of the configured event (C9) *)

Lemma scan_events_known (name : string) (tbl : list string) :
  In name tbl ->
  forall i,
    snd (scan_events name tbl i) = Ret 0 /\
    Forall (fun j => i <= j < i + Z.of_nat (length tbl))
           (fst (scan_events name tbl i)).
Proof.
  induction tbl as [|entry rest IH]; intros Hin i; [contradiction|].
  cbn [scan_events].
  destruct (strcmp name entry =? 0) eqn:Hcmp.
  - split; [reflexivity|]. constructor; [|constructor].
    cbn [length]. lia.
  - assert (Hrest : In name rest).
    { destruct Hin as [->|H]; [|exact H].
      rewrite strcmp_refl in Hcmp. discriminate. }
    destruct (IH Hrest (i + 1)) as [Hr Hreads].
    destruct (scan_events name rest (i + 1)) as [reads r].
    cbn [fst snd] in *. split; [exact Hr|].
    constructor; [cbn [length]; lia|].
    eapply Forall_impl; [|exact Hreads].
    cbn [length]. intros j Hj. cbn beta in Hj. lia.
Qed.

(** A name that is not in the table makes the scan read the element
    behind the last one: the table has no [NULL] at its end. *)
Lemma scan_events_unknown (name : string) (tbl : list string) :
  ~ In name tbl ->
  forall i,
    snd (scan_events name tbl i)
    = Faulted (OutOfBounds "events" (i + Z.of_nat (length tbl))) /\
    In (i + Z.of_nat (length tbl)) (fst (scan_events name tbl i)).
Proof.
  induction tbl as [|entry rest IH]; intros Hnot i.
  - cbn [scan_events length fst snd]. rewrite Z.add_0_r.
    split; [reflexivity | left; reflexivity].
  - cbn [scan_events].
    destruct (strcmp name entry =? 0) eqn:Hcmp.
    + exfalso. apply Hnot. left. symmetry.
      apply strcmp_eq, Z.eqb_eq, Hcmp.
    + assert (Hrest : ~ In name rest) by (intros H; apply Hnot; right; exact H).
      destruct (IH Hrest (i + 1)) as [Hr Hreads].
      destruct (scan_events name rest (i + 1)) as [reads r].
      cbn [fst snd length] in *.
      replace (i + Z.of_nat (S (length rest)))
        with (i + 1 + Z.of_nat (length rest)) by lia.
      split; [exact Hr | right; exact Hreads].
Qed.

(** C9 at a concrete input: for the configured name ["IN_BOGUS"] the scan
    reads the indices 0 to 13 of the thirteen-element table; index 13 is
    outside it, and that read comes before any decision to reject. *)
Theorem unknown_event_reads_past_table :
  let run := main (demo_env bogus_rule 0 0 3) ["fileguard"; "conf.yaml"]
                  [] initial in
  length events = 13%nat /\
  scan_events "IN_BOGUS" events 0
  = ([0; 1; 2; 3; 4; 5; 6; 7; 8; 9; 10; 11; 12; 13],
     Faulted (OutOfBounds "events" 13)) /\
  nth_error events 13 = None /\
  fst run = Faulted (OutOfBounds "events" 13).
Proof. repeat split; vm_compute; reflexivity. Qed.

(** ** The flags [verbose] and [notifier] (C10) *)

(** Without [-v] and [-n] the option loop leaves both variables as the
    stack had them. *)
Lemma parse_options_no_flag (argv0 : string) (verbose notifier : Z)
      (s : state) :
  parse_options argv0 [] verbose notifier s = (Ret (verbose, notifier), s).
Proof. reflexivity. Qed.

Lemma grows_watch (e : env) (notifier : Z) (y : yaml_t)
      (inputs : list stimulus) :
  grows (watch e notifier y inputs).
Proof.
  unfold watch. grows_auto;
    try (apply grows_same_trace; reflexivity); apply grows_watch_loop.
Qed.

Lemma grows_configure (e : env) (notifier : Z) (yaml_target : string)
      (inputs : list stimulus) :
  grows (configure e notifier yaml_target inputs).
Proof.
  unfold configure. grows_auto;
    try (apply grows_same_trace; reflexivity); apply grows_watch.
Qed.

(** For every environment and every argument vector in which [getopt]
    finds no option, the first thing the process does is to set the log
    level, and which of the two calls it makes is decided by what the
    storage of [verbose] held on entry. *)
Lemma verbosity_follows_the_stack
      (e : env) (argv : list string) (inputs : list stimulus) :
  fst (getopt e argv) = [] ->
  hd_error (history (snd (main e argv inputs initial)))
  = Some (if stack_verbose e =? 0 then ELogSetQuiet 1 else ELogSetLevel 3).
Proof.
  intros Hopts. unfold main, startup.
  destruct (getopt e argv) as [opts argv']. cbn [fst] in Hopts. subst opts.
  unfold bind at 1, atexit at 1.
  cbn [parse_options]. rewrite bind_ret_l. unfold init_verbosity.
  set (x := if stack_verbose e =? 0 then ELogSetQuiet 1 else ELogSetLevel 3).
  replace (if stack_verbose e =? 0
           then emit (ELogSetQuiet 1) else emit (ELogSetLevel 3))
    with (emit x) by (unfold x; destruct (stack_verbose e =? 0); reflexivity).
  rewrite bind_emit.
  match goal with
  | |- context [snd (?m ?s1)] =>
      assert (H : grows m); [|destruct (H s1) as [later Hl]]
  end.
  { apply grows_bind.
    - unfold select_yaml. grows_auto.
    - intros [yaml_target|]; [apply grows_configure|grows_auto]. }
  unfold history. rewrite Hl. cbn [push trace].
  rewrite rev_app_distr. reflexivity.
Qed.

(** C10 at a concrete input: the arguments [fileguard conf.yaml] hold
    neither [-v] nor [-n].  Two runs whose environments differ only in
    what the storage of [verbose] holds on entry take different branches
    of [if (!verbose)]; and the body of the event loop, given what the
    storage of [notifier] holds, raises a notification in one case and not
    in the other. *)
Theorem unset_flags_follow_the_stack :
  let argv := ["fileguard"; "conf.yaml"] in
  let quiet_run := main (demo_env execute_rule 0 0 3) argv [] initial in
  let loud_run := main (demo_env execute_rule 7 0 3) argv [] initial in
  let body v := on_event (demo_env execute_rule 0 v 3)
                         (stack_notifier (demo_env execute_rule 0 v 3))
                         "execute" "ls -la" "IN_MODIFY" ev_open initial in
  fst (getopt_hvn argv) = [] /\
  hd_error (history (snd quiet_run)) = Some (ELogSetQuiet 1) /\
  hd_error (history (snd loud_run)) = Some (ELogSetLevel 3) /\
  count is_notification (history (snd (body 0))) = 0%nat /\
  count is_notification (history (snd (body 7))) = 1%nat.
Proof. repeat split; vm_compute; reflexivity. Qed.

(** With the flags given, the decisions no longer depend on the stack. *)
Example set_flags_decide :
  let argv := ["fileguard"; "-vn"; "conf.yaml"] in
  fst (parse_options "fileguard" (fst (getopt_hvn argv)) 0 0 initial)
  = Ret (1, 1) /\
  fst (parse_options "fileguard" (fst (getopt_hvn argv)) 7 (-3) initial)
  = Ret (1, 1).
Proof. split; vm_compute; reflexivity. Qed.

(** ** Teardown (C6)

    [cleanup] is registered with [atexit] first thing in [main], and is
    all the release there is: [inotify_rm_watch] on the globals.  [close]
    is never called. *)


Section Tidy.

Variable P : Prop.











End Tidy.



Section Teardown.

Variable e : env.
Variable P : Prop.




Lemma scan_events_outcome (name : string) (tbl : list string) :
  forall i, snd (scan_events name tbl i) = Ret 0 \/
            exists f, snd (scan_events name tbl i) = Faulted f.
Proof.
  induction tbl as [|entry rest IH]; intros i; cbn [scan_events].
  - right. eexists. reflexivity.
  - destruct (strcmp name entry =? 0); [left; reflexivity|].
    specialize (IH (i + 1)).
    destruct (scan_events name rest (i + 1)) as [reads r]. exact IH.
Qed.





End Teardown.

Section TeardownOfMain.

Variable e : env.






End TeardownOfMain.



(** An exit before [inotify_init]: [cleanup] still runs, on the initial
    values of the globals. *)
Example early_exit_cleanup :
  let run := main (demo_env execute_rule 0 0 3) ["fileguard"; "-h"] []
                  initial in
  fst run = Exited EXIT_SUCCESS /\
  filter is_rm_watch (history (snd run)) = [EInotifyRmWatch 0 0].
Proof. split; vm_compute; reflexivity. Qed.

(** * Further properties of [main] *)

(** ** The inner loop on whole records *)

Lemma strcmp_eqb (a b : string) : (strcmp a b =? 0) = String.eqb a b.
Proof.
  destruct (String.eqb_spec a b) as [->|Hne].
  - apply strcmp_same.
  - apply strcmp_neq, Hne.
Qed.

Lemma trace_pushes (l : list effect) (s : state) :
  trace (pushes l s) = rev l ++ trace s.
Proof.
  revert s. induction l as [|x l IH]; intros s; cbn [pushes rev].
  - reflexivity.
  - rewrite IH. cbn [push trace]. rewrite <- app_assoc. reflexivity.
Qed.

Lemma pushes_app (l1 l2 : list effect) (s : state) :
  pushes (l1 ++ l2) s = pushes l2 (pushes l1 s).
Proof.
  revert s. induction l1 as [|x l1 IH]; intros s; cbn [pushes app].
  - reflexivity.
  - apply IH.
Qed.

Section WholeRecords.

Variable e : env.
Variables (notifier : Z) (prepend command y_event : string).

Local Abbreviation effects_of :=
  (record_effects e notifier prepend command y_event).

(** One iteration, when the log can be written: it returns, having made
    the calls of [record_effects]. *)
Lemma handle_effects (ev : inotify_event) (s : state) :
  log_succeeds e prepend command ev ->
  handle e notifier prepend command y_event ev s
  = (Ret tt, pushes (effects_of ev) s).
Proof.
  intros Hlog. unfold handle, on_event, record_effects, log_debug, printf.
  rewrite !bind_emit. cbn [app pushes].
  assert (Hn : forall k : unit -> M unit, forall s0,
             bind (if notifier =? 0 then ret tt
                   else emit (ERaiseNotification (asctime_now e)
                                                 (get_event e ev))) k s0
             = k tt (pushes (if notifier =? 0 then []
                             else [ERaiseNotification (asctime_now e)
                                     (get_event e ev)]) s0)).
  { intros k s0. destruct (notifier =? 0); reflexivity. }
  rewrite Hn, !pushes_app. unfold dispatch.
  rewrite !strcmp_eqb.
  destruct (String.eqb prepend "execute" && String.eqb y_event (get_event e ev)).
  - reflexivity.
  - destruct (String.eqb_spec prepend "log") as [Hp|Hp]; [|reflexivity].
    destruct (Hlog Hp) as [Hm Hf]. rewrite Hm, bind_emit.
    destruct (Z.ltb_spec (flag (create_file e command
      (Some (asctime_now e ++ get_event e ev ++ newline)%string))) 0);
      [lia|reflexivity].
Qed.

Lemma for_each_handle_effects (evs : list inotify_event) :
  Forall (log_succeeds e prepend command) evs ->
  forall s,
    for_each (handle e notifier prepend command y_event) evs s
    = (Ret tt, pushes (flat_map effects_of evs) s).
Proof.
  induction 1 as [|ev evs Hev _ IH]; intros s; cbn [for_each flat_map].
  - reflexivity.
  - unfold bind. rewrite handle_effects by assumption.
    rewrite pushes_app. apply IH.
Qed.

(** The whole inner loop on records stored back to back, when the log can
    be written for each: it returns at [n], having made the calls of the
    records one after the other. *)
Lemma event_loop_effects (evs : list inotify_event) (slack : list byte)
      (s : state) :
  Forall wf_event evs ->
  Forall (log_succeeds e prepend command) evs ->
  event_loop e (Z.to_nat (Z.of_nat (length (pack evs))))
             notifier prepend command y_event
             (pack evs ++ slack) (Z.of_nat (length (pack evs))) 0 s
  = (Ret (Z.of_nat (length (pack evs))),
     pushes (flat_map effects_of evs) s).
Proof.
  intros Hwf Hlog.
  change (pack evs ++ slack) with ([] ++ pack evs ++ slack).
  change 0 with (Z.of_nat (length (@nil byte))) at 1.
  rewrite event_loop_pack by (assumption || simpl; lia).
  unfold bind. rewrite for_each_handle_effects by assumption.
  apply event_loop_done. simpl. lia.
Qed.

End WholeRecords.

Lemma history_pushes (l : list effect) (s : state) :
  history (pushes l s) = history s ++ l.
Proof.
  unfold history. rewrite trace_pushes, rev_app_distr, rev_involutive.
  reflexivity.
Qed.

Lemma filter_flat_map {A B} (f : B -> bool) (g : A -> list B) (l : list A) :
  filter f (flat_map g l) = flat_map (fun a => filter f (g a)) l.
Proof.
  induction l as [|a l IH]; cbn [flat_map]; [reflexivity|].
  rewrite filter_app, IH. reflexivity.
Qed.

Lemma flat_map_singleton {A B} (g : A -> B) (l : list A) :
  flat_map (fun a => [g a]) l = map g l.
Proof. induction l as [|a l IH]; cbn; [reflexivity | f_equal; exact IH]. Qed.

Lemma flat_map_nil {A B} (l : list A) :
  flat_map (fun _ : A => @nil B) l = [].
Proof. induction l as [|a l IH]; cbn; [reflexivity | exact IH]. Qed.

Lemma flat_map_ext_eq {A B} (g h : A -> list B) (l : list A) :
  (forall a, g a = h a) -> flat_map g l = flat_map h l.
Proof.
  intros H. induction l as [|a l IH]; cbn; [reflexivity|].
  rewrite H, IH. reflexivity.
Qed.

Lemma flat_map_if {A B} (p : A -> bool) (c : B) (l : list A) :
  flat_map (fun a => if p a then [c] else []) l
  = repeat c (length (filter p l)).
Proof.
  induction l as [|a l IH]; cbn [flat_map filter]; [reflexivity|].
  rewrite IH. destruct (p a); reflexivity.
Qed.

Section LoopTraces.

Variable e : env.
Variables (notifier : Z) (prepend command y_event : string).

(** What a filter keeps of the trace of the whole inner loop. *)
Lemma event_loop_filter (f : effect -> bool)
      (g : inotify_event -> list effect)
      (evs : list inotify_event) (slack : list byte) (s : state) :
  (forall ev, filter f (record_effects e notifier prepend command y_event ev)
              = g ev) ->
  Forall wf_event evs ->
  Forall (log_succeeds e prepend command) evs ->
  fst (event_loop e (Z.to_nat (Z.of_nat (length (pack evs))))
                  notifier prepend command y_event
                  (pack evs ++ slack) (Z.of_nat (length (pack evs))) 0 s)
  = Ret (Z.of_nat (length (pack evs))) /\
  filter f (history (snd
     (event_loop e (Z.to_nat (Z.of_nat (length (pack evs))))
                 notifier prepend command y_event
                 (pack evs ++ slack) (Z.of_nat (length (pack evs))) 0 s)))
  = filter f (history s) ++ flat_map g evs.
Proof.
  intros Hg Hwf Hlog. rewrite event_loop_effects by assumption.
  cbn [fst snd]. split; [reflexivity|].
  rewrite history_pushes, filter_app, filter_flat_map.
  f_equal. apply flat_map_ext_eq, Hg.
Qed.

End LoopTraces.

Lemma filter_event_line_record
      (e : env) (notifier : Z) (prepend command y_event : string)
      (ev : inotify_event) :
  filter is_event_line (record_effects e notifier prepend command y_event ev)
  = [event_line e ev].
Proof.
  unfold record_effects. rewrite !filter_app.
  destruct (notifier =? 0);
    destruct (String.eqb prepend "execute"
              && String.eqb y_event (get_event e ev));
    destruct (String.eqb prepend "log"); reflexivity.
Qed.

Lemma filter_notification_record
      (e : env) (notifier : Z) (prepend command y_event : string)
      (ev : inotify_event) :
  filter is_notification
         (record_effects e notifier prepend command y_event ev)
  = if notifier =? 0 then [] else [notification e ev].
Proof.
  unfold record_effects. rewrite !filter_app.
  destruct (notifier =? 0);
    destruct (String.eqb prepend "execute"
              && String.eqb y_event (get_event e ev));
    destruct (String.eqb prepend "log"); reflexivity.
Qed.

Lemma filter_system_record
      (e : env) (notifier : Z) (prepend command y_event : string)
      (ev : inotify_event) :
  filter is_system (record_effects e notifier prepend command y_event ev)
  = if String.eqb prepend "execute" && String.eqb y_event (get_event e ev)
    then [ESystem command] else [].
Proof.
  unfold record_effects. rewrite !filter_app.
  destruct (notifier =? 0);
    destruct (String.eqb prepend "execute"
              && String.eqb y_event (get_event e ev));
    destruct (String.eqb prepend "log"); reflexivity.
Qed.

Lemma filter_create_file_record
      (e : env) (notifier : Z) (prepend command y_event : string)
      (ev : inotify_event) :
  filter is_create_file
         (record_effects e notifier prepend command y_event ev)
  = if String.eqb prepend "execute" && String.eqb y_event (get_event e ev)
    then []
    else if String.eqb prepend "log" then [log_write e command ev] else [].
Proof.
  unfold record_effects. rewrite !filter_app.
  destruct (notifier =? 0);
    destruct (String.eqb prepend "execute"
              && String.eqb y_event (get_event e ev));
    destruct (String.eqb prepend "log"); reflexivity.
Qed.

Lemma execute_never_logs (e : env) (command : string)
      (evs : list inotify_event) :
  Forall (log_succeeds e "execute" command) evs.
Proof.
  apply Forall_forall. intros ev _ H. discriminate H.
Qed.

(** X1.  Execute mode, whole records stored back to back: the loop
    returns at [n], and [system] is called with the configured command
    once for every record whose name is the configured event, and for no
    other. *)
Theorem execute_runs_command_per_match
        (e : env) (notifier : Z) (command y_event : string)
        (evs : list inotify_event) (slack : list byte) (s : state) :
  Forall wf_event evs ->
  fst (event_loop e (Z.to_nat (Z.of_nat (length (pack evs))))
                  notifier "execute" command y_event
                  (pack evs ++ slack) (Z.of_nat (length (pack evs))) 0 s)
  = Ret (Z.of_nat (length (pack evs))) /\
  filter is_system (history (snd
     (event_loop e (Z.to_nat (Z.of_nat (length (pack evs))))
                 notifier "execute" command y_event
                 (pack evs ++ slack) (Z.of_nat (length (pack evs))) 0 s)))
  = filter is_system (history s)
    ++ repeat (ESystem command) (length (triggering e y_event evs)).
Proof.
  intros Hwf. unfold triggering. rewrite <- flat_map_if.
  apply event_loop_filter;
    [|exact Hwf|apply execute_never_logs].
  intros ev. rewrite filter_system_record. reflexivity.
Qed.

Lemma execute_runs_command_per_match_witness :
  Forall wf_event three_events /\
  fst (event_loop (demo_env execute_rule 0 0 3)
         (Z.to_nat (Z.of_nat (length (pack three_events))))
         0 "execute" "ls -la" "IN_MODIFY"
         (pack three_events ++ repeat Byte.x00 8)
         (Z.of_nat (length (pack three_events))) 0 initial)
  = Ret (Z.of_nat (length (pack three_events))) /\
  filter is_system (history (snd
     (event_loop (demo_env execute_rule 0 0 3)
         (Z.to_nat (Z.of_nat (length (pack three_events))))
         0 "execute" "ls -la" "IN_MODIFY"
         (pack three_events ++ repeat Byte.x00 8)
         (Z.of_nat (length (pack three_events))) 0 initial)))
  = filter is_system (history initial)
    ++ repeat (ESystem "ls -la")
         (length (triggering (demo_env execute_rule 0 0 3) "IN_MODIFY"
                             three_events)).
Proof.
  assert (H : Forall wf_event three_events)
    by (repeat constructor; simpl; lia).
  split; [exact H|].
  apply (execute_runs_command_per_match (demo_env execute_rule 0 0 3) 0
           "ls -la" "IN_MODIFY" three_events (repeat Byte.x00 8) initial H).
Defined.

Lemma log_never_fails_succeeds (e : env) (prepend command : string)
      (evs : list inotify_event) :
  (prepend = "log" -> log_never_fails e command) ->
  Forall (log_succeeds e prepend command) evs.
Proof.
  intros H. apply Forall_forall. intros ev _ Hp.
  destruct (H Hp) as [Hm Hf]. split; [exact Hm | apply Hf].
Qed.

(** X2.  Log mode, whole records stored back to back, the log file
    writable: the loop returns at [n], and [create_file] is called on the
    log file once for every record, in the order of the records, with the
    time string, the name of the event and a newline as contents,
    whatever the configured event is. *)
Theorem log_writes_every_record
        (e : env) (notifier : Z) (command y_event : string)
        (evs : list inotify_event) (slack : list byte) (s : state) :
  Forall wf_event evs ->
  log_never_fails e command ->
  fst (event_loop e (Z.to_nat (Z.of_nat (length (pack evs))))
                  notifier "log" command y_event
                  (pack evs ++ slack) (Z.of_nat (length (pack evs))) 0 s)
  = Ret (Z.of_nat (length (pack evs))) /\
  filter is_create_file (history (snd
     (event_loop e (Z.to_nat (Z.of_nat (length (pack evs))))
                 notifier "log" command y_event
                 (pack evs ++ slack) (Z.of_nat (length (pack evs))) 0 s)))
  = filter is_create_file (history s) ++ map (log_write e command) evs.
Proof.
  intros Hwf Hlog. rewrite <- flat_map_singleton.
  apply event_loop_filter;
    [|exact Hwf|apply log_never_fails_succeeds; intros _; exact Hlog].
  intros ev. rewrite filter_create_file_record. reflexivity.
Qed.

Lemma log_writes_every_record_witness :
  Forall wf_event three_events /\
  log_never_fails (demo_env log_rule 0 0 3) "/tmp/fileguard.log" /\
  fst (event_loop (demo_env log_rule 0 0 3)
         (Z.to_nat (Z.of_nat (length (pack three_events))))
         0 "log" "/tmp/fileguard.log" "IN_MODIFY"
         (pack three_events ++ repeat Byte.x00 8)
         (Z.of_nat (length (pack three_events))) 0 initial)
  = Ret (Z.of_nat (length (pack three_events))) /\
  filter is_create_file (history (snd
     (event_loop (demo_env log_rule 0 0 3)
         (Z.to_nat (Z.of_nat (length (pack three_events))))
         0 "log" "/tmp/fileguard.log" "IN_MODIFY"
         (pack three_events ++ repeat Byte.x00 8)
         (Z.of_nat (length (pack three_events))) 0 initial)))
  = filter is_create_file (history initial)
    ++ map (log_write (demo_env log_rule 0 0 3) "/tmp/fileguard.log")
           three_events.
Proof.
  assert (H1 : Forall wf_event three_events)
    by (repeat constructor; simpl; lia).
  assert (H2 : log_never_fails (demo_env log_rule 0 0 3) "/tmp/fileguard.log")
    by (split; [reflexivity | intros contents; simpl; lia]).
  split; [exact H1|]. split; [exact H2|].
  apply (log_writes_every_record (demo_env log_rule 0 0 3) 0
           "/tmp/fileguard.log" "IN_MODIFY" three_events
           (repeat Byte.x00 8) initial H1 H2).
Defined.

(** X3.  With the notifier flag non-zero, whole records stored back to
    back and no failure of the log: a notification is raised for every
    record, in the order of the records, with the time string and the
    name of the event, whether or not the record is the configured
    event. *)
Theorem notification_for_every_record
        (e : env) (notifier : Z) (prepend command y_event : string)
        (evs : list inotify_event) (slack : list byte) (s : state) :
  notifier <> 0 ->
  Forall wf_event evs ->
  (prepend = "log" -> log_never_fails e command) ->
  filter is_notification (history (snd
     (event_loop e (Z.to_nat (Z.of_nat (length (pack evs))))
                 notifier prepend command y_event
                 (pack evs ++ slack) (Z.of_nat (length (pack evs))) 0 s)))
  = filter is_notification (history s) ++ map (notification e) evs.
Proof.
  intros Hn Hwf Hlog. rewrite <- flat_map_singleton.
  apply event_loop_filter;
    [|exact Hwf|apply log_never_fails_succeeds; exact Hlog].
  intros ev. rewrite filter_notification_record.
  apply Z.eqb_neq in Hn. rewrite Hn. reflexivity.
Qed.

Lemma notification_for_every_record_witness :
  1 <> 0 /\
  Forall wf_event three_events /\
  ("execute" = "log" ->
   log_never_fails (demo_env execute_rule 0 1 3) "ls -la") /\
  filter is_notification (history (snd
     (event_loop (demo_env execute_rule 0 1 3)
         (Z.to_nat (Z.of_nat (length (pack three_events))))
         1 "execute" "ls -la" "IN_MODIFY"
         (pack three_events ++ repeat Byte.x00 8)
         (Z.of_nat (length (pack three_events))) 0 initial)))
  = filter is_notification (history initial)
    ++ map (notification (demo_env execute_rule 0 1 3)) three_events.
Proof.
  assert (H0 : 1 <> 0) by lia.
  assert (H1 : Forall wf_event three_events)
    by (repeat constructor; simpl; lia).
  assert (H2 : "execute" = "log" ->
               log_never_fails (demo_env execute_rule 0 1 3) "ls -la")
    by (intros H; discriminate H).
  split; [exact H0|]. split; [exact H1|]. split; [exact H2|].
  apply (notification_for_every_record (demo_env execute_rule 0 1 3) 1
           "execute" "ls -la" "IN_MODIFY" three_events
           (repeat Byte.x00 8) initial H0 H1 H2).
Defined.

(** X4.  Whole records stored back to back and no failure of the log:
    the lines ["<event> event ocurred"] the loop prints are those of the
    records, one each, in their order, in every mode. *)
Theorem event_lines_follow_the_records
        (e : env) (notifier : Z) (prepend command y_event : string)
        (evs : list inotify_event) (slack : list byte) (s : state) :
  Forall wf_event evs ->
  (prepend = "log" -> log_never_fails e command) ->
  filter is_event_line (history (snd
     (event_loop e (Z.to_nat (Z.of_nat (length (pack evs))))
                 notifier prepend command y_event
                 (pack evs ++ slack) (Z.of_nat (length (pack evs))) 0 s)))
  = filter is_event_line (history s) ++ map (event_line e) evs.
Proof.
  intros Hwf Hlog. rewrite <- flat_map_singleton.
  apply event_loop_filter;
    [|exact Hwf|apply log_never_fails_succeeds; exact Hlog].
  intros ev. apply filter_event_line_record.
Qed.

Lemma event_lines_follow_the_records_witness :
  Forall wf_event three_events /\
  ("log" = "log" ->
   log_never_fails (demo_env log_rule 0 0 3) "/tmp/fileguard.log") /\
  filter is_event_line (history (snd
     (event_loop (demo_env log_rule 0 0 3)
         (Z.to_nat (Z.of_nat (length (pack three_events))))
         0 "log" "/tmp/fileguard.log" "IN_MODIFY"
         (pack three_events ++ repeat Byte.x00 8)
         (Z.of_nat (length (pack three_events))) 0 initial)))
  = filter is_event_line (history initial)
    ++ map (event_line (demo_env log_rule 0 0 3)) three_events.
Proof.
  assert (H1 : Forall wf_event three_events)
    by (repeat constructor; simpl; lia).
  assert (H2 : "log" = "log" ->
               log_never_fails (demo_env log_rule 0 0 3) "/tmp/fileguard.log")
    by (intros _; split; [reflexivity | intros contents; simpl; lia]).
  split; [exact H1|]. split; [exact H2|].
  apply (event_lines_follow_the_records (demo_env log_rule 0 0 3) 0
           "log" "/tmp/fileguard.log" "IN_MODIFY" three_events
           (repeat Byte.x00 8) initial H1 H2).
Defined.

(** X5.  A mode word that is neither ["execute"] nor ["log"] is not
    reported: on whole records stored back to back the loop returns at
    [n] and has called neither [system] nor [create_file]. *)
Theorem unknown_mode_does_nothing
        (e : env) (notifier : Z) (prepend command y_event : string)
        (evs : list inotify_event) (slack : list byte) (s : state) :
  prepend <> "execute" -> prepend <> "log" ->
  Forall wf_event evs ->
  fst (event_loop e (Z.to_nat (Z.of_nat (length (pack evs))))
                  notifier prepend command y_event
                  (pack evs ++ slack) (Z.of_nat (length (pack evs))) 0 s)
  = Ret (Z.of_nat (length (pack evs))) /\
  filter (fun x => is_system x || is_create_file x) (history (snd
     (event_loop e (Z.to_nat (Z.of_nat (length (pack evs))))
                 notifier prepend command y_event
                 (pack evs ++ slack) (Z.of_nat (length (pack evs))) 0 s)))
  = filter (fun x => is_system x || is_create_file x) (history s).
Proof.
  intros He Hl Hwf.
  rewrite <- (app_nil_r (filter _ (history s))).
  rewrite <- (flat_map_nil (A := inotify_event) evs).
  apply event_loop_filter;
    [|exact Hwf|apply log_never_fails_succeeds; intros H; contradiction].
  intros ev. unfold record_effects. rewrite !filter_app.
  apply String.eqb_neq in He, Hl. rewrite He, Hl.
  destruct (notifier =? 0); reflexivity.
Qed.

Lemma unknown_mode_does_nothing_witness :
  "run" <> "execute" /\ "run" <> "log" /\
  Forall wf_event three_events /\
  fst (event_loop (demo_env execute_rule 0 0 3)
         (Z.to_nat (Z.of_nat (length (pack three_events))))
         0 "run" "ls -la" "IN_MODIFY"
         (pack three_events ++ repeat Byte.x00 8)
         (Z.of_nat (length (pack three_events))) 0 initial)
  = Ret (Z.of_nat (length (pack three_events))) /\
  filter (fun x => is_system x || is_create_file x) (history (snd
     (event_loop (demo_env execute_rule 0 0 3)
         (Z.to_nat (Z.of_nat (length (pack three_events))))
         0 "run" "ls -la" "IN_MODIFY"
         (pack three_events ++ repeat Byte.x00 8)
         (Z.of_nat (length (pack three_events))) 0 initial)))
  = filter (fun x => is_system x || is_create_file x) (history initial).
Proof.
  assert (H0 : "run" <> "execute") by discriminate.
  assert (H1 : "run" <> "log") by discriminate.
  assert (H2 : Forall wf_event three_events)
    by (repeat constructor; simpl; lia).
  split; [exact H0|]. split; [exact H1|]. split; [exact H2|].
  apply (unknown_mode_does_nothing (demo_env execute_rule 0 0 3) 0
           "run" "ls -la" "IN_MODIFY" three_events
           (repeat Byte.x00 8) initial H0 H1 H2).
Defined.

(** ** What [exit] adds to the trace *)

Lemma run_atexit_state (hs : list handler) :
  forall s,
    fst (run_atexit hs s) = Ret tt /\
    snd (run_atexit hs s)
    = pushes (repeat (EInotifyRmWatch (fd s) (wd s)) (length hs)) s.
Proof.
  induction hs as [|[] hs IH]; intros s; cbn [run_atexit length repeat pushes].
  - split; reflexivity.
  - unfold bind. cbn [run_handler].
    change (cleanup s) with (Ret tt, push (EInotifyRmWatch (fd s) (wd s)) s).
    destruct (IH (push (EInotifyRmWatch (fd s) (wd s)) s)) as [H1 H2].
    split; [exact H1 | exact H2].
Qed.

Lemma exit_state {A} (status : Z) (s : state) :
  @exit A status s
  = (Exited status,
     pushes (repeat (EInotifyRmWatch (fd s) (wd s)) (length (atexit_list s)))
            s).
Proof.
  unfold exit. destruct (run_atexit_state (atexit_list s) s) as [_ ->].
  reflexivity.
Qed.

Lemma atexit_list_pushes (l : list effect) (s : state) :
  atexit_list (pushes l s) = atexit_list s.
Proof.
  revert s. induction l as [|x l IH]; intros s; cbn [pushes];
    [reflexivity | rewrite IH; reflexivity].
Qed.

Lemma filter_repeat_false {A} (f : A -> bool) (x : A) (n : nat) :
  f x = false -> filter f (repeat x n) = [].
Proof.
  intros H. induction n as [|n IH]; cbn [repeat filter];
    [reflexivity | rewrite H; exact IH].
Qed.

(** ** Failure of the log *)

Section LogFailure.

Variable e : env.
Variables (notifier : Z) (command y_event : string).

Lemma handle_log_fails (ev : inotify_event) (s : state) :
  malloc_ok e = true ->
  flag (create_file e command
          (Some (asctime_now e ++ get_event e ev ++ newline)%string)) < 0 ->
  handle e notifier "log" command y_event ev s
  = (Exited EXIT_FAILURE,
     pushes (record_effects e notifier "log" command y_event ev
             ++ EPerror "Couldn't create log file. Reason"
             :: repeat (EInotifyRmWatch (fd s) (wd s))
                       (length (atexit_list s))) s).
Proof.
  intros Hm Hf. unfold handle, on_event, record_effects, log_debug, printf.
  rewrite !bind_emit.
  assert (Hn : forall k : unit -> M unit, forall s0,
             bind (if notifier =? 0 then ret tt
                   else emit (ERaiseNotification (asctime_now e)
                                                 (get_event e ev))) k s0
             = k tt (pushes (if notifier =? 0 then []
                             else [ERaiseNotification (asctime_now e)
                                     (get_event e ev)]) s0)).
  { intros k s0. destruct (notifier =? 0); reflexivity. }
  rewrite Hn. unfold dispatch.
  change (strcmp "log" "execute" =? 0) with false.
  change (strcmp "log" "log" =? 0) with true.
  change (String.eqb "log" "execute") with false.
  change (String.eqb "log" "log") with true.
  cbn [andb]. rewrite Hm, bind_emit.
  destruct (Z.ltb_spec (flag (create_file e command
      (Some (asctime_now e ++ get_event e ev ++ newline)%string))) 0);
    [|lia].
  unfold perror. rewrite bind_emit, exit_state.
  destruct (notifier =? 0); reflexivity.
Qed.

End LogFailure.

Lemma fd_pushes (l : list effect) (s : state) : fd (pushes l s) = fd s.
Proof.
  revert s. induction l as [|x l IH]; intros s; cbn [pushes];
    [reflexivity | rewrite IH; reflexivity].
Qed.

Lemma wd_pushes (l : list effect) (s : state) : wd (pushes l s) = wd s.
Proof.
  revert s. induction l as [|x l IH]; intros s; cbn [pushes];
    [reflexivity | rewrite IH; reflexivity].
Qed.

Lemma sc_pushes (l : list effect) (s : state) : sc (pushes l s) = sc s.
Proof.
  revert s. induction l as [|x l IH]; intros s; cbn [pushes];
    [reflexivity | rewrite IH; reflexivity].
Qed.

(** X6.  Log mode, whole records stored back to back: when [create_file]
    fails for a record, after succeeding for those before it, the loop
    does not go on.  The failure is reported with [perror], the process
    exits with [EXIT_FAILURE] through the [atexit] handlers, and the
    records behind the failing one are not handled. *)
Theorem log_failure_ends_the_process
        (e : env) (notifier : Z) (command y_event : string)
        (evs1 : list inotify_event) (ev : inotify_event)
        (evs2 : list inotify_event) (slack : list byte) (s : state) :
  Forall wf_event (evs1 ++ ev :: evs2) ->
  malloc_ok e = true ->
  Forall (fun ev' => 0 <= flag (create_file e command
            (Some (asctime_now e ++ get_event e ev' ++ newline)%string)))
         evs1 ->
  flag (create_file e command
          (Some (asctime_now e ++ get_event e ev ++ newline)%string)) < 0 ->
  fst (event_loop e
         (Z.to_nat (Z.of_nat (length (pack (evs1 ++ ev :: evs2)))))
         notifier "log" command y_event
         (pack (evs1 ++ ev :: evs2) ++ slack)
         (Z.of_nat (length (pack (evs1 ++ ev :: evs2)))) 0 s)
  = Exited EXIT_FAILURE /\
  history (snd (event_loop e
         (Z.to_nat (Z.of_nat (length (pack (evs1 ++ ev :: evs2)))))
         notifier "log" command y_event
         (pack (evs1 ++ ev :: evs2) ++ slack)
         (Z.of_nat (length (pack (evs1 ++ ev :: evs2)))) 0 s))
  = history s
    ++ flat_map (record_effects e notifier "log" command y_event)
                (evs1 ++ [ev])
    ++ EPerror "Couldn't create log file. Reason"
       :: repeat (EInotifyRmWatch (fd s) (wd s)) (length (atexit_list s)).
Proof.
  intros Hwf Hm Hok Hfail.
  assert (Hrun :
    event_loop e
      (Z.to_nat (Z.of_nat (length (pack (evs1 ++ ev :: evs2)))))
      notifier "log" command y_event
      (pack (evs1 ++ ev :: evs2) ++ slack)
      (Z.of_nat (length (pack (evs1 ++ ev :: evs2)))) 0 s
    = (Exited EXIT_FAILURE,
       pushes (record_effects e notifier "log" command y_event ev
               ++ EPerror "Couldn't create log file. Reason"
               :: repeat (EInotifyRmWatch (fd s) (wd s))
                         (length (atexit_list s)))
              (pushes (flat_map (record_effects e notifier "log" command
                                                y_event) evs1) s))).
  { change (pack (evs1 ++ ev :: evs2) ++ slack)
      with ([] ++ pack (evs1 ++ ev :: evs2) ++ slack).
    change 0 with (Z.of_nat (length (@nil byte))) at 1.
    rewrite event_loop_pack by (assumption || simpl; lia).
    rewrite bind_for_each_app. unfold bind at 1.
    rewrite for_each_handle_effects.
    2:{ eapply Forall_impl; [|exact Hok]. intros ev' H _. split; assumption. }
    cbn [for_each]. unfold bind.
    rewrite handle_log_fails by assumption.
    rewrite fd_pushes, wd_pushes, atexit_list_pushes. reflexivity. }
  rewrite Hrun. cbn [fst snd]. split; [reflexivity|].
  rewrite !history_pushes, flat_map_app. cbn [flat_map].
  rewrite app_nil_r, <- !app_assoc. reflexivity.
Qed.

Lemma log_failure_ends_the_process_witness :
  Forall wf_event ([ev_open] ++ ev_modify :: [ev_delete]) /\
  malloc_ok failing_log_env = true /\
  Forall (fun ev' => 0 <= flag (create_file failing_log_env
            "/tmp/fileguard.log"
            (Some (asctime_now failing_log_env
                   ++ get_event failing_log_env ev' ++ newline)%string)))
         [ev_open] /\
  flag (create_file failing_log_env "/tmp/fileguard.log"
          (Some (asctime_now failing_log_env
                 ++ get_event failing_log_env ev_modify ++ newline)%string))
  < 0 /\
  fst (event_loop failing_log_env
         (Z.to_nat (Z.of_nat (length
            (pack ([ev_open] ++ ev_modify :: [ev_delete])))))
         0 "log" "/tmp/fileguard.log" "IN_MODIFY"
         (pack ([ev_open] ++ ev_modify :: [ev_delete]) ++ repeat Byte.x00 16)
         (Z.of_nat (length (pack ([ev_open] ++ ev_modify :: [ev_delete]))))
         0 initial)
  = Exited EXIT_FAILURE /\
  history (snd (event_loop failing_log_env
         (Z.to_nat (Z.of_nat (length
            (pack ([ev_open] ++ ev_modify :: [ev_delete])))))
         0 "log" "/tmp/fileguard.log" "IN_MODIFY"
         (pack ([ev_open] ++ ev_modify :: [ev_delete]) ++ repeat Byte.x00 16)
         (Z.of_nat (length (pack ([ev_open] ++ ev_modify :: [ev_delete]))))
         0 initial))
  = history initial
    ++ flat_map (record_effects failing_log_env 0 "log" "/tmp/fileguard.log"
                                "IN_MODIFY")
                ([ev_open] ++ [ev_modify])
    ++ EPerror "Couldn't create log file. Reason"
       :: repeat (EInotifyRmWatch (fd initial) (wd initial))
                 (length (atexit_list initial)).
Proof.
  assert (H1 : Forall wf_event ([ev_open] ++ ev_modify :: [ev_delete]))
    by (repeat constructor; simpl; lia).
  assert (H2 : malloc_ok failing_log_env = true) by reflexivity.
  assert (H3 : Forall (fun ev' => 0 <= flag (create_file failing_log_env
            "/tmp/fileguard.log"
            (Some (asctime_now failing_log_env
                   ++ get_event failing_log_env ev' ++ newline)%string)))
         [ev_open])
    by (repeat constructor; vm_compute; discriminate).
  assert (H4 : flag (create_file failing_log_env "/tmp/fileguard.log"
          (Some (asctime_now failing_log_env
                 ++ get_event failing_log_env ev_modify ++ newline)%string))
               < 0)
    by (vm_compute; reflexivity).
  split; [exact H1|]. split; [exact H2|]. split; [exact H3|].
  split; [exact H4|].
  apply (log_failure_ends_the_process failing_log_env 0
           "/tmp/fileguard.log" "IN_MODIFY" [ev_open] ev_modify [ev_delete]
           (repeat Byte.x00 16) initial H1 H2 H3 H4).
Defined.

(** ** Rounds of the read loop *)

Section Rounds.

Variable e : env.
Variables (notifier : Z) (prepend command y_event : string).

Lemma watch_loop_zero_reads (bufs : list (list byte))
      (rest : list stimulus) :
  forall s,
    sc s = true ->
    watch_loop e notifier prepend command y_event (zero_reads bufs ++ rest) s
    = watch_loop e notifier prepend command y_event rest
        (pushes (flat_map (fun _ => zero_round (fd s)) bufs) s).
Proof.
  induction bufs as [|buf bufs IH]; intros s Hsc.
  - reflexivity.
  - cbn [zero_reads map app]. rewrite watch_loop_zero_read by exact Hsc.
    fold (zero_reads bufs). rewrite IH by exact Hsc. reflexivity.
Qed.

Lemma watch_loop_waits (s : state) :
  sc s = true ->
  watch_loop e notifier prepend command y_event [] s
  = (Blocked, push (ERead (fd s)) s).
Proof.
  intros Hsc. cbn [watch_loop]. unfold bind at 1, gets at 1.
  rewrite Hsc. reflexivity.
Qed.

Lemma watch_loop_sigint (rest : list stimulus) (s : state) :
  sc s = true ->
  watch_loop e notifier prepend command y_event (Sigint :: rest) s
  = catch_sig SIGINT (push (ERead (fd s)) s).
Proof.
  intros Hsc. cbn [watch_loop]. unfold bind at 1, gets at 1.
  rewrite Hsc. reflexivity.
Qed.

End Rounds.

(** X7.  Reads of [0] bytes never end the loop and never handle a
    record, whatever the buffer holds: after any number of them the
    process has called [read] and printed the remark once for each, and
    is waiting in one more [read]. *)
Theorem zero_reads_never_end_the_loop
        (e : env) (notifier : Z) (prepend command y_event : string)
        (bufs : list (list byte)) (s : state) :
  sc s = true ->
  fst (watch_loop e notifier prepend command y_event (zero_reads bufs) s)
  = Blocked /\
  history (snd (watch_loop e notifier prepend command y_event
                           (zero_reads bufs) s))
  = history s ++ flat_map (fun _ => zero_round (fd s)) bufs
    ++ [ERead (fd s)].
Proof.
  intros Hsc.
  rewrite <- (app_nil_r (zero_reads bufs)).
  rewrite watch_loop_zero_reads by exact Hsc.
  rewrite watch_loop_waits by (rewrite sc_pushes; exact Hsc).
  cbn [fst snd]. split; [reflexivity|].
  rewrite fd_pushes. unfold history at 1. cbn [push trace rev].
  fold (history (pushes (flat_map (fun _ => zero_round (fd s)) bufs) s)).
  rewrite history_pushes, <- app_assoc. reflexivity.
Qed.

Lemma zero_reads_never_end_the_loop_witness :
  sc initial = true /\
  fst (watch_loop (demo_env execute_rule 0 0 3) 0 "execute" "ls -la"
                  "IN_MODIFY"
                  (zero_reads [buffer 64 (encode_event ev_modify); []])
                  initial)
  = Blocked /\
  history (snd (watch_loop (demo_env execute_rule 0 0 3) 0 "execute"
                  "ls -la" "IN_MODIFY"
                  (zero_reads [buffer 64 (encode_event ev_modify); []])
                  initial))
  = history initial
    ++ flat_map (fun _ => zero_round (fd initial))
                [buffer 64 (encode_event ev_modify); []]
    ++ [ERead (fd initial)].
Proof.
  assert (H : sc initial = true) by reflexivity.
  split; [exact H|].
  apply (zero_reads_never_end_the_loop (demo_env execute_rule 0 0 3) 0
           "execute" "ls -la" "IN_MODIFY"
           [buffer 64 (encode_event ev_modify); []] initial H).
Defined.

(** ** From [inotify_init] to the loop *)

Lemma watch_opened (e : env) (notifier : Z) (y : yaml_t)
      (inputs : list stimulus) (prepend saved command rest : string)
      (s : state) :
  strtok (action y) " " = (Some prepend, saved) ->
  strtok saved dquote = (Some command, rest) ->
  watch e notifier y inputs s
  = bind (watch_loop e notifier prepend command (event y) inputs)
         (fun _ => exit EXIT_SUCCESS) (opened e y s).
Proof.
  intros Hp Hc. unfold watch, opened, open_effects.
  rewrite Hp, Hc. unfold bind, emit, set_fd, set_wd, gets, perror, ret.
  cbn [fst snd fd wd].
  destruct (inotify_init e <? 0);
    destruct (inotify_add_watch e (inotify_init e) (inode y) IN_ALL_EVENTS
              <? 0); reflexivity.
Qed.

Lemma watch_rejects (e : env) (notifier : Z) (y : yaml_t)
      (inputs : list stimulus) (prepend : option string)
      (saved rest : string) (s : state) :
  strtok (action y) " " = (prepend, saved) ->
  strtok saved dquote = (None, rest) ->
  watch e notifier y inputs s
  = bind (fprintf Stderr "Command/path cannot be none. Exiting.\n" [])
         (fun _ => exit EXIT_FAILURE) (opened e y s).
Proof.
  intros Hp Hc. unfold watch, opened, open_effects.
  rewrite Hp, Hc. unfold bind, emit, set_fd, set_wd, gets, perror, ret.
  cbn [fst snd fd wd].
  destruct (inotify_init e <? 0);
    destruct (inotify_add_watch e (inotify_init e) (inode y) IN_ALL_EVENTS
              <? 0); reflexivity.
Qed.

Lemma history_opened (e : env) (y : yaml_t) (s : state) :
  history (opened e y s) = history s ++ open_effects e y.
Proof.
  unfold history, opened. cbn [trace].
  rewrite rev_app_distr, rev_involutive. reflexivity.
Qed.

(** X8.  A read that returns anything but [0], an error as well as a
    number of bytes, ends the process with [EXIT_SUCCESS]: after the
    reads of [0] before it, the loop reports ["Couldn't read event"],
    breaks, and [main] calls [exit (EXIT_SUCCESS)]; what the channel would
    have delivered next is never read. *)
Theorem nonzero_read_exits_with_success
        (e : env) (notifier : Z) (y : yaml_t)
        (prepend saved command rest : string)
        (bufs : list (list byte)) (rd : Z) (buf : list byte)
        (later : list stimulus) (s : state) :
  sc s = true ->
  strtok (action y) " " = (Some prepend, saved) ->
  strtok saved dquote = (Some command, rest) ->
  rd <> 0 ->
  fst (watch e notifier y (zero_reads bufs ++ ReadReturns rd buf :: later) s)
  = Exited EXIT_SUCCESS /\
  history (snd (watch e notifier y
                      (zero_reads bufs ++ ReadReturns rd buf :: later) s))
  = history s ++ open_effects e y
    ++ flat_map (fun _ => zero_round (inotify_init e)) bufs
    ++ [ERead (inotify_init e); EPerror "Couldn't read event. Reason"]
    ++ repeat (EInotifyRmWatch (inotify_init e)
                 (inotify_add_watch e (inotify_init e) (inode y)
                                    IN_ALL_EVENTS))
              (length (atexit_list s)).
Proof.
  intros Hsc Hp Hc Hrd.
  rewrite (watch_opened e notifier y _ prepend saved command rest s Hp Hc).
  unfold bind.
  rewrite watch_loop_zero_reads by exact Hsc.
  rewrite watch_loop_nonzero_read
    by (rewrite ?sc_pushes; exact Hsc || exact Hrd).
  rewrite exit_state. cbn [fst snd]. split; [reflexivity|].
  rewrite history_pushes.
  cbn [push fd wd atexit_list]. rewrite !fd_pushes, !wd_pushes.
  rewrite atexit_list_pushes. cbn [opened fd wd atexit_list].
  unfold history at 1. cbn [push trace rev].
  fold (history (pushes (flat_map (fun _ => zero_round (inotify_init e)) bufs)
                        (opened e y s))).
  rewrite history_pushes, history_opened, <- !app_assoc. reflexivity.
Qed.

Lemma nonzero_read_exits_with_success_witness :
  sc initial = true /\
  strtok (action execute_rule) " "
  = (Some "execute", dquote ++ "ls -la" ++ dquote)%string /\
  strtok (dquote ++ "ls -la" ++ dquote)%string dquote
  = (Some "ls -la", EmptyString) /\
  16 <> 0 /\
  fst (watch (demo_env execute_rule 0 0 3) 0 execute_rule
             (zero_reads [@nil byte] ++
              ReadReturns 16 (buffer 64 (encode_event ev_modify)) :: [Sigint])
             initial)
  = Exited EXIT_SUCCESS /\
  history (snd (watch (demo_env execute_rule 0 0 3) 0 execute_rule
             (zero_reads [@nil byte] ++
              ReadReturns 16 (buffer 64 (encode_event ev_modify)) :: [Sigint])
             initial))
  = history initial ++ open_effects (demo_env execute_rule 0 0 3) execute_rule
    ++ flat_map (fun _ => zero_round
                            (inotify_init (demo_env execute_rule 0 0 3)))
                [@nil byte]
    ++ [ERead (inotify_init (demo_env execute_rule 0 0 3));
        EPerror "Couldn't read event. Reason"]
    ++ repeat (EInotifyRmWatch (inotify_init (demo_env execute_rule 0 0 3))
                 (inotify_add_watch (demo_env execute_rule 0 0 3)
                    (inotify_init (demo_env execute_rule 0 0 3))
                    (inode execute_rule) IN_ALL_EVENTS))
              (length (atexit_list initial)).
Proof.
  assert (H1 : sc initial = true) by reflexivity.
  assert (H2 : strtok (action execute_rule) " "
               = (Some "execute", dquote ++ "ls -la" ++ dquote)%string)
    by (vm_compute; reflexivity).
  assert (H3 : strtok (dquote ++ "ls -la" ++ dquote)%string dquote
               = (Some "ls -la", EmptyString))
    by (vm_compute; reflexivity).
  assert (H4 : 16 <> 0) by lia.
  split; [exact H1|]. split; [exact H2|]. split; [exact H3|].
  split; [exact H4|].
  apply (nonzero_read_exits_with_success (demo_env execute_rule 0 0 3) 0
           execute_rule "execute" (dquote ++ "ls -la" ++ dquote)%string
           "ls -la" EmptyString [@nil byte] 16
           (buffer 64 (encode_event ev_modify)) [Sigint] initial
           H1 H2 H3 H4).
Defined.

(** ** Rules for triples *)

Section Triples.

Variables (Q : Z -> state -> Prop) (F : fault -> state -> Prop)
          (B : state -> Prop).

Lemma triple_bind {A C} (P R1 R : state -> Prop) (m : M A) (k : A -> M C) :
  triple P m R1 Q F B -> (forall a, triple R1 (k a) R Q F B) ->
  triple P (bind m k) R Q F B.
Proof.
  intros Hm Hk s Hs. specialize (Hm s Hs). unfold bind.
  destruct (m s) as [[a| | |] s']; try exact Hm.
  apply Hk, Hm.
Qed.

Lemma triple_pre {A} (P P' R : state -> Prop) (m : M A) :
  (forall s, P s -> P' s) -> triple P' m R Q F B -> triple P m R Q F B.
Proof. intros HP Hm s Hs. apply Hm, HP, Hs. Qed.

Lemma triple_ret {A} (P R : state -> Prop) (a : A) :
  (forall s, P s -> R s) -> triple P (ret a) R Q F B.
Proof. intros H s Hs. apply H, Hs. Qed.

Lemma triple_gets {A} (P R : state -> Prop) (f : state -> A) :
  (forall s, P s -> R s) -> triple P (gets f) R Q F B.
Proof. intros H s Hs. apply H, Hs. Qed.

Lemma triple_emit (P R : state -> Prop) (x : effect) :
  (forall s, P s -> R (push x s)) -> triple P (emit x) R Q F B.
Proof. intros H s Hs. apply H, Hs. Qed.

Lemma triple_exit {A} (P R : state -> Prop) (status : Z) :
  (forall s, P s -> Q status (exited s)) -> triple P (@exit A status) R Q F B.
Proof.
  intros H s Hs. rewrite exit_state. apply H, Hs.
Qed.

Lemma triple_fault {A} (P R : state -> Prop) (f : fault) :
  (forall s, P s -> F f s) -> triple P (@raise_fault A f) R Q F B.
Proof. intros H s Hs. apply H, Hs. Qed.

Lemma triple_blocked {A} (P R : state -> Prop) :
  (forall s, P s -> B s) -> triple P (fun s => (@Blocked A, s)) R Q F B.
Proof. intros H s Hs. apply H, Hs. Qed.

End Triples.

Lemma triple_post {A} (P R R' : state -> Prop) (Q Q' : Z -> state -> Prop)
      (F F' : fault -> state -> Prop) (B B' : state -> Prop) (m : M A) :
  (forall s, R s -> R' s) -> (forall z s, Q z s -> Q' z s) ->
  (forall f s, F f s -> F' f s) -> (forall s, B s -> B' s) ->
  triple P m R Q F B -> triple P m R' Q' F' B'.
Proof.
  intros HR HQ HF HB Hm s Hs. specialize (Hm s Hs).
  destruct (m s) as [[a| | |] s']; auto.
Qed.

Lemma sc_exited (s : state) : sc (exited s) = sc s.
Proof. apply sc_pushes. Qed.

Lemma history_exited (s : state) :
  history (exited s)
  = history s
    ++ repeat (EInotifyRmWatch (fd s) (wd s)) (length (atexit_list s)).
Proof. apply history_pushes. Qed.

Lemma filter_exited (f : effect -> bool) (s : state) :
  (forall a b, f (EInotifyRmWatch a b) = false) ->
  filter f (history (exited s)) = filter f (history s).
Proof.
  intros H. rewrite history_exited, filter_app, filter_repeat_false by apply H.
  apply app_nil_r.
Qed.

Lemma history_push (x : effect) (s : state) :
  history (push x s) = history s ++ [x].
Proof. reflexivity. Qed.

Lemma catch_sig_state {A} (s : state) :
  @catch_sig A SIGINT s = (Exited EXIT_SUCCESS, signalled s).
Proof.
  unfold catch_sig, log_warn. rewrite bind_emit.
  unfold bind at 1, set_sc at 1. unfold bind at 1.
  change (cleanup ?s0) with (Ret tt, push (EInotifyRmWatch (fd s0) (wd s0)) s0).
  cbv beta iota. rewrite exit_state. reflexivity.
Qed.

Lemma history_signalled (s : state) :
  history (signalled s)
  = history s
    ++ [ELog LWarn "Signal %i caught! Cleaning up...\n" [AInt SIGINT];
        EInotifyRmWatch (fd s) (wd s)]
    ++ repeat (EInotifyRmWatch (fd s) (wd s)) (length (atexit_list s)).
Proof.
  unfold signalled. rewrite history_exited. cbn [push fd wd atexit_list].
  unfold history at 1. cbn [push trace rev].
  rewrite <- !app_assoc. reflexivity.
Qed.

Lemma watch_loop_stopped (e : env) (notifier : Z)
      (prepend command y_event : string) (inputs : list stimulus)
      (s : state) :
  sc s = false ->
  watch_loop e notifier prepend command y_event inputs s = (Ret tt, s).
Proof.
  intros Hsc. destruct inputs; cbn [watch_loop];
    unfold bind at 1, gets at 1; rewrite Hsc; reflexivity.
Qed.

(** The read loop keeps an invariant that its own calls keep. *)
Lemma triple_watch_loop
      (I : state -> Prop) (Q : Z -> state -> Prop)
      (F : fault -> state -> Prop) (B : state -> Prop)
      (e : env) (notifier : Z) (prepend command y_event : string) :
  (forall s, I s -> B (push (ERead (fd s)) s)) ->
  (forall s, I s ->
             I (push (EPrintf Stdout "read() tossed back a 0" [])
                     (push (ERead (fd s)) s))) ->
  (forall s, I s ->
             I (push (EPerror "Couldn't read event. Reason")
                     (push (ERead (fd s)) s))) ->
  (forall s, I s -> Q EXIT_SUCCESS (signalled (push (ERead (fd s)) s))) ->
  forall inputs,
    triple I (watch_loop e notifier prepend command y_event inputs) I Q F B.
Proof.
  intros HB Hzero Hnon Hsig inputs.
  induction inputs as [|[rd buf|] inputs IH]; intros s Hs;
    destruct (sc s) eqn:Hsc;
    try (rewrite watch_loop_stopped by exact Hsc; exact Hs).
  - rewrite watch_loop_waits by exact Hsc. apply HB, Hs.
  - destruct (Z.eq_dec rd 0) as [->|Hrd].
    + rewrite watch_loop_zero_read by exact Hsc. apply IH, Hzero, Hs.
    + rewrite watch_loop_nonzero_read by assumption. apply Hnon, Hs.
  - rewrite watch_loop_sigint by exact Hsc.
    rewrite catch_sig_state. apply Hsig, Hs.
Qed.

Ltac triple_step I side :=
  match goal with
  | |- triple _ (bind _ _) _ _ _ _ =>
      eapply triple_bind with (R1 := I); [|intros ?]
  | |- triple _ (ret _) _ _ _ _ => apply triple_ret; side
  | |- triple _ (gets _) _ _ _ _ => apply triple_gets; side
  | |- triple _ (emit _) _ _ _ _ => apply triple_emit; side
  | |- triple _ (exit _) _ _ _ _ => apply triple_exit; side
  | |- triple _ (raise_fault _) _ _ _ _ => apply triple_fault; side
  | |- triple _ (if ?c then _ else _) _ _ _ _ => destruct c eqn:?
  | |- triple _ (match ?x with _ => _ end) _ _ _ _ => destruct x eqn:?
  | |- triple _ (let '(_, _) := ?x in _) _ _ _ _ => destruct x eqn:?
  end.

Ltac triple_auto I side :=
  unfold usage, printf, fprintf, perror, log_debug, log_info, log_warn;
  repeat triple_step I side.

(** ** [main] does not act *)

Lemma idle_push (x : effect) (s : state) :
  acts x = false -> idle s -> idle (push x s).
Proof.
  intros Hx Hs. unfold idle in *.
  rewrite history_push, filter_app, Hs. cbn [filter]. rewrite Hx. reflexivity.
Qed.

Lemma idle_exited (s : state) : idle s -> idle (exited s).
Proof.
  intros Hs. unfold idle in *. rewrite filter_exited; [exact Hs|].
  intros a b. reflexivity.
Qed.

Lemma idle_signalled (s : state) : idle s -> idle (signalled s).
Proof.
  intros Hs. unfold idle in *.
  rewrite history_signalled, !filter_app, Hs.
  rewrite filter_repeat_false by reflexivity. reflexivity.
Qed.

Ltac idle_side :=
  intros;
  repeat first [ assumption
               | apply idle_exited
               | apply idle_signalled
               | apply idle_push; [reflexivity|] ].

Section Idle.

Variable e : env.

Local Abbreviation stays_idle m :=
  (triple idle m idle (fun _ => idle) (fun _ => idle) idle).

Lemma idle_parse_options (argv0 : string) (opts : list ascii) :
  forall verbose notifier,
    stays_idle (parse_options argv0 opts verbose notifier).
Proof.
  induction opts as [|c opts IH]; intros verbose notifier; cbn [parse_options].
  - triple_auto idle idle_side.
  - triple_auto idle idle_side; apply IH.
Qed.

Lemma idle_check_event (name : string) : stays_idle (check_event name).
Proof.
  intros s Hs. unfold check_event.
  destruct (scan_events_outcome name events 0) as [-> | [f ->]]; exact Hs.
Qed.

Lemma idle_watch_loop (notifier : Z) (prepend command y_event : string)
      (inputs : list stimulus) :
  stays_idle (watch_loop e notifier prepend command y_event inputs).
Proof. apply triple_watch_loop; idle_side. Qed.

Lemma idle_watch (notifier : Z) (y : yaml_t) (inputs : list stimulus) :
  stays_idle (watch e notifier y inputs).
Proof.
  unfold watch. unfold set_fd, set_wd.
  triple_auto idle idle_side;
    try apply idle_watch_loop;
    try (intros s Hs; exact Hs).
Qed.

Lemma idle_configure (notifier : Z) (yaml_target : string)
      (inputs : list stimulus) :
  stays_idle (configure e notifier yaml_target inputs).
Proof.
  unfold configure.
  triple_auto idle idle_side;
    try apply idle_check_event; apply idle_watch.
Qed.

Lemma idle_startup (argv : list string) (inputs : list stimulus) :
  stays_idle (startup e argv inputs).
Proof.
  unfold startup, init_verbosity, select_yaml.
  triple_auto idle idle_side;
    try apply idle_parse_options; apply idle_configure.
Qed.

End Idle.

(** X9.  As [main] is written, the process never acts on an event: in
    every environment, for every argument vector and whatever the channel
    delivers, it calls neither [system] nor [raise_notification], prints
    no event line and writes no line to a log file.  The inner loop only
    runs after a read of [0], and then has nothing to go through. *)
Theorem main_never_acts
        (e : env) (argv : list string) (inputs : list stimulus) :
  filter acts (history (snd (main e argv inputs initial))) = [].
Proof.
  pose proof (idle_startup e argv inputs
                {| sc := true; fd := 0; wd := 0;
                   atexit_list := [Cleanup]; trace := [] |}) as H.
  change (main e argv inputs initial) with
    (startup e argv inputs {| sc := true; fd := 0; wd := 0;
                              atexit_list := [Cleanup]; trace := [] |}).
  destruct (startup e argv inputs _) as [[a| | |] s']; apply H; reflexivity.
Qed.

(** ** Event lines in a run of [main] (C8) *)



Ltac triple_step_with I side leaf :=
  first [ leaf | triple_step I side ].

Ltac triple_auto_with I side leaf :=
  unfold usage, printf, fprintf, perror, log_debug, log_info, log_warn;
  repeat triple_step_with I side leaf.

(** ** Exit status *)

Lemma unread_push (x : effect) (s : state) :
  is_read x = false -> unread s -> unread (push x s).
Proof.
  intros Hx Hs. unfold unread in *.
  rewrite history_push, filter_app, Hs. cbn [filter]. rewrite Hx. reflexivity.
Qed.

Lemma unread_exited (s : state) : unread s -> unread (exited s).
Proof.
  intros Hs. unfold unread in *. rewrite filter_exited; [exact Hs|].
  intros a b. reflexivity.
Qed.

Ltac status_side :=
  intros; unfold status_ok;
  repeat first [ assumption
               | exact I
               | left; reflexivity
               | right; split; [reflexivity|]
               | apply unread_exited
               | apply unread_push; [reflexivity|] ].

Section Status.

Variable e : env.

Local Abbreviation before_read m :=
  (triple unread m unread status_ok (fun _ _ => True) (fun _ => True)).

Lemma status_parse_options (argv0 : string) (opts : list ascii) :
  forall verbose notifier,
    before_read (parse_options argv0 opts verbose notifier).
Proof.
  induction opts as [|c opts IH]; intros verbose notifier; cbn [parse_options].
  - triple_auto unread status_side.
  - triple_auto unread status_side; apply IH.
Qed.

Lemma status_check_event (name : string) : before_read (check_event name).
Proof.
  intros s Hs. unfold check_event.
  destruct (scan_events_outcome name events 0) as [-> | [f ->]];
    [exact Hs | exact I].
Qed.

(** From the loop on, every exit is one with [EXIT_SUCCESS]. *)
Lemma status_loop (notifier : Z) (prepend command y_event : string)
      (inputs : list stimulus) :
  triple unread
         (bind (watch_loop e notifier prepend command y_event inputs)
               (fun _ => @exit unit EXIT_SUCCESS))
         unread status_ok (fun _ _ => True) (fun _ => True).
Proof.
  apply triple_pre with (P' := fun _ => True); [trivial|].
  eapply triple_bind with (R1 := fun _ => True).
  - apply triple_watch_loop; intros; try exact I. left. reflexivity.
  - intros _. apply triple_exit. intros. left. reflexivity.
Qed.

Lemma status_watch (notifier : Z) (y : yaml_t) (inputs : list stimulus) :
  before_read (watch e notifier y inputs).
Proof.
  unfold watch. unfold set_fd, set_wd.
  triple_auto_with unread status_side ltac:(apply status_loop);
    try (intros s Hs; exact Hs).
Qed.

Lemma status_configure (notifier : Z) (yaml_target : string)
      (inputs : list stimulus) :
  before_read (configure e notifier yaml_target inputs).
Proof.
  unfold configure.
  triple_auto unread status_side;
    try apply status_check_event; apply status_watch.
Qed.

Lemma status_startup (argv : list string) (inputs : list stimulus) :
  before_read (startup e argv inputs).
Proof.
  unfold startup, init_verbosity, select_yaml.
  triple_auto unread status_side;
    try apply status_parse_options; apply status_configure.
Qed.

End Status.

(** X10.  The exit status of the process is [EXIT_SUCCESS] or
    [EXIT_FAILURE], and it is [EXIT_FAILURE] only if [read] was never
    called: once the read loop is entered, a read error, a break of the
    loop and SIGINT all end the process with [EXIT_SUCCESS]. *)
Theorem failure_status_only_before_reading
        (e : env) (argv : list string) (inputs : list stimulus)
        (status : Z) (s' : state) :
  main e argv inputs initial = (Exited status, s') ->
  status = EXIT_SUCCESS \/
  (status = EXIT_FAILURE /\ filter is_read (history s') = []).
Proof.
  intros Hrun.
  pose proof (status_startup e argv inputs
                {| sc := true; fd := 0; wd := 0;
                   atexit_list := [Cleanup]; trace := [] |}) as H.
  change (main e argv inputs initial) with
    (startup e argv inputs {| sc := true; fd := 0; wd := 0;
                              atexit_list := [Cleanup]; trace := [] |})
    in Hrun.
  rewrite Hrun in H. apply H. reflexivity.
Qed.

Lemma failure_status_only_before_reading_witness :
  main (demo_env execute_rule 0 0 3) ["fileguard"; "-x"] [] initial
  = (Exited EXIT_FAILURE,
     snd (main (demo_env execute_rule 0 0 3) ["fileguard"; "-x"] [] initial))
  /\
  (EXIT_FAILURE = EXIT_SUCCESS \/
   (EXIT_FAILURE = EXIT_FAILURE /\
    filter is_read
      (history (snd (main (demo_env execute_rule 0 0 3)
                          ["fileguard"; "-x"] [] initial))) = [])).
Proof.
  assert (H : main (demo_env execute_rule 0 0 3) ["fileguard"; "-x"] []
                   initial
              = (Exited EXIT_FAILURE,
                 snd (main (demo_env execute_rule 0 0 3)
                           ["fileguard"; "-x"] [] initial)))
    by (vm_compute; reflexivity).
  split; [exact H|].
  exact (failure_status_only_before_reading (demo_env execute_rule 0 0 3)
           ["fileguard"; "-x"] [] EXIT_FAILURE _ H).
Defined.

(** ** Faults *)

Lemma scan_events_fault (name : string) (tbl : list string) :
  forall i f,
    snd (scan_events name tbl i) = Faulted f ->
    f = OutOfBounds "events" (i + Z.of_nat (length tbl)).
Proof.
  induction tbl as [|entry rest IH]; intros i f; cbn [scan_events].
  - cbn [snd length]. intros [= <-]. rewrite Z.add_0_r. reflexivity.
  - destruct (strcmp name entry =? 0); [discriminate|].
    specialize (IH (i + 1) f).
    destruct (scan_events name rest (i + 1)) as [reads r].
    cbn [snd length] in *. intros H. rewrite (IH H). f_equal. lia.
Qed.

(** When [strtok] finds no token it leaves nothing to resume from, so
    that the next call finds none either. *)
Lemma strtok_none (s delim saved : string) :
  strtok s delim = (None, saved) -> saved = EmptyString.
Proof.
  unfold strtok. destruct (skip_delims delim s) as [|c rest].
  - intros [= <-]. reflexivity.
  - destruct (scan_token delim (String c rest)). discriminate.
Qed.

Lemma strtok_empty (delim : string) :
  strtok EmptyString delim = (None, EmptyString).
Proof. reflexivity. Qed.

Lemma strtok_none_then_none (s delim delim' saved command rest : string) :
  strtok s delim = (None, saved) ->
  strtok saved delim' = (Some command, rest) -> False.
Proof.
  intros H1 H2. apply strtok_none in H1. subst saved.
  rewrite strtok_empty in H2. discriminate.
Qed.

Ltac fault_side :=
  intros;
  first [ exact I
        | exfalso; eapply strtok_none_then_none; eassumption ].

Section Faults.

Variable e : env.

Local Abbreviation sound m :=
  (triple (fun _ => True) m (fun _ => True) (fun _ _ => True)
          (fun f _ => f = OutOfBounds "events" 13) (fun _ => True)).

Lemma sound_parse_options (argv0 : string) (opts : list ascii) :
  forall verbose notifier,
    sound (parse_options argv0 opts verbose notifier).
Proof.
  induction opts as [|c opts IH]; intros verbose notifier; cbn [parse_options].
  - triple_auto (fun _ : state => True) fault_side.
  - triple_auto (fun _ : state => True) fault_side; apply IH.
Qed.

Lemma sound_check_event (name : string) : sound (check_event name).
Proof.
  intros s _. unfold check_event.
  destruct (snd (scan_events name events 0)) as [a| |f|] eqn:H; try exact I.
  apply scan_events_fault in H. exact H.
Qed.

Lemma sound_watch_loop (notifier : Z) (prepend command y_event : string)
      (inputs : list stimulus) :
  sound (watch_loop e notifier prepend command y_event inputs).
Proof. apply triple_watch_loop; intros; exact I. Qed.

Lemma sound_watch (notifier : Z) (y : yaml_t) (inputs : list stimulus) :
  sound (watch e notifier y inputs).
Proof.
  unfold watch. unfold set_fd, set_wd.
  triple_auto (fun _ : state => True) fault_side;
    try apply sound_watch_loop;
    try (intros s Hs; exact I).
Qed.

Lemma sound_configure (notifier : Z) (yaml_target : string)
      (inputs : list stimulus) :
  sound (configure e notifier yaml_target inputs).
Proof.
  unfold configure.
  triple_auto (fun _ : state => True) fault_side;
    try apply sound_check_event; apply sound_watch.
Qed.

Lemma sound_startup (argv : list string) (inputs : list stimulus) :
  sound (startup e argv inputs).
Proof.
  unfold startup, init_verbosity, select_yaml.
  triple_auto (fun _ : state => True) fault_side;
    try apply sound_parse_options; apply sound_configure.
Qed.

End Faults.

(** X11.  In no run of [main] is the mode word a null pointer where it
    is compared with ["execute"], and in no run is a record header read
    outside [buf]: a missing mode word means a missing target, which is
    rejected before the loop, and the body of the inner loop only follows
    a read of [0], where it has nothing to go through.  This is said of
    these two accesses only; the result of [strdup], which the code does
    not check, is taken to be a copy (see [watch]). *)
Theorem mode_word_and_headers_are_safe
        (e : env) (argv : list string) (inputs : list stimulus) :
  fst (main e argv inputs initial) <> Faulted NullPointer /\
  forall p : Z,
    fst (main e argv inputs initial) <> Faulted (OutOfBounds "buf" p).
Proof.
  pose proof (sound_startup e argv inputs
                {| sc := true; fd := 0; wd := 0;
                   atexit_list := [Cleanup]; trace := [] |}) as H.
  change (main e argv inputs initial) with
    (startup e argv inputs {| sc := true; fd := 0; wd := 0;
                              atexit_list := [Cleanup]; trace := [] |}).
  destruct (startup e argv inputs _) as [[a| |f|] s'];
    cbn [fst]; try (split; [|intros p]; discriminate).
  specialize (H I). cbv beta iota in H. subst f.
  split; [|intros p]; discriminate.
Qed.

(** ** The checks before [inotify_init] *)

Lemma triple_any {A} (P R : state -> Prop) (Q : Z -> state -> Prop)
      (F : fault -> state -> Prop) (B : state -> Prop) (m : M A) :
  (forall s, R s) -> (forall z s, Q z s) -> (forall f s, F f s) ->
  (forall s, B s) -> triple P m R Q F B.
Proof.
  intros HR HQ HF HB s _. destruct (m s) as [[a| | |] s']; auto.
Qed.

(** The scan of the table either finds the name, and gives [0], or goes
    behind the table. *)
Lemma triple_check_event {C} (P R : state -> Prop) (Q : Z -> state -> Prop)
      (F : fault -> state -> Prop) (B : state -> Prop)
      (name : string) (k : Z -> M C) :
  (In name events -> triple P (k 0) R Q F B) ->
  (forall s, P s -> F (OutOfBounds "events" 13) s) ->
  triple P (bind (check_event name) k) R Q F B.
Proof.
  intros Hin Hout s Hs. unfold bind, check_event.
  destruct (in_dec string_dec name events) as [H|H].
  - destruct (scan_events_known name events H 0) as [-> _].
    apply Hin; assumption.
  - destruct (scan_events_unknown name events H 0) as [-> _].
    apply Hout, Hs.
Qed.

Lemma unopened_push (x : effect) (s : state) :
  is_init x = false -> unopened s -> unopened (push x s).
Proof.
  intros Hx Hs. unfold unopened in *.
  rewrite history_push, filter_app, Hs. cbn [filter]. rewrite Hx. reflexivity.
Qed.

Lemma unopened_exited (s : state) : unopened s -> unopened (exited s).
Proof.
  intros Hs. unfold unopened in *. rewrite filter_exited; [exact Hs|].
  intros a b. reflexivity.
Qed.

Ltac gate_side :=
  intros;
  repeat first [ assumption
               | apply unopened_push; [reflexivity|]
               | apply unopened_exited
               | left ].

Section Gate.

Variable e : env.

Local Abbreviation gated C m :=
  (triple unopened m (fun s => unopened s \/ C)
          (fun _ s => unopened s \/ C) (fun _ s => unopened s \/ C)
          (fun s => unopened s \/ C)).

Lemma gate_parse_options (argv0 : string) (opts : list ascii) (C : Prop) :
  forall verbose notifier,
    triple unopened (parse_options argv0 opts verbose notifier) unopened
           (fun _ s => unopened s \/ C) (fun _ s => unopened s \/ C)
           (fun s => unopened s \/ C).
Proof.
  induction opts as [|c opts IH]; intros verbose notifier; cbn [parse_options].
  - triple_auto unopened gate_side.
  - triple_auto unopened gate_side; apply IH.
Qed.

Lemma gate_configure (notifier : Z) (yaml_target : string)
      (inputs : list stimulus) :
  gated (checks_passed e yaml_target)
        (configure e notifier yaml_target inputs).
Proof.
  unfold configure.
  triple_auto_with unopened gate_side
    ltac:(apply triple_check_event; [intros ?|gate_side]).
  apply triple_any; intros; right; unfold checks_passed;
    repeat split;
    try assumption;
    try (apply Z.ltb_ge; assumption);
    try (apply negb_false_iff; assumption).
Qed.

Lemma triple_bind_ret {A C} (P R : state -> Prop) (Q : Z -> state -> Prop)
      (F : fault -> state -> Prop) (B : state -> Prop)
      (a : A) (k : A -> M C) :
  triple P (k a) R Q F B -> triple P (bind (ret a) k) R Q F B.
Proof. intros H s Hs. rewrite bind_ret_l. apply H, Hs. Qed.

Lemma gate_select_yaml {C} (R : state -> Prop) (Q : Z -> state -> Prop)
      (F : fault -> state -> Prop) (B : state -> Prop)
      (a : string) (rest : list string) (k : option string -> M C) :
  triple unopened (k (Some (if occurs "." a then a else CONFIG_FILE e)))
         R Q F B ->
  triple unopened (bind (select_yaml e (a :: rest)) k) R Q F B.
Proof.
  intros Hk s Hs. unfold select_yaml. rewrite extension_check_dot.
  destruct (occurs "." a).
  - unfold log_info. rewrite bind_assoc, bind_emit, bind_ret_l.
    apply Hk. apply unopened_push; [reflexivity|exact Hs].
  - rewrite bind_ret_l. apply Hk, Hs.
Qed.

Lemma gate_startup (argv : list string) (inputs : list stimulus) :
  gated (exists a rest,
            tl (snd (getopt e argv)) = a :: rest /\
            checks_passed e (if occurs "." a then a else CONFIG_FILE e))
        (startup e argv inputs).
Proof.
  unfold startup.
  destruct (getopt e argv) as [opts argv']. cbn [snd].
  eapply triple_bind with (R1 := unopened); [apply gate_parse_options|].
  intros [verbose notifier].
  eapply triple_bind with (R1 := unopened);
    [unfold init_verbosity; triple_auto unopened gate_side|].
  intros _.
  destruct (tl argv') as [|a rest].
  - cbn [select_yaml]. apply triple_bind_ret. cbv beta iota.
    triple_auto unopened gate_side.
  - apply gate_select_yaml.
    eapply triple_post; [| | | |apply gate_configure];
      intros; cbv beta in *;
      match goal with
      | H : _ \/ _ |- _ =>
          destruct H as [H|H]; [left; exact H|right; eauto]
      end.
Qed.

End Gate.

(** X12.  [inotify_init] is called only after every check of the
    configuration has passed: if it is called at all, then there is a
    first argument, and for the file [main] takes the configuration from
    (that argument if it has a dot in it, [CONFIG_FILE] if not) it holds
    that the file could be opened and parsed, that the event it configures
    is one of the thirteen of the table, and that the path it configures
    could be opened and has the permissions asked for. *)
Theorem inotify_only_after_the_checks
        (e : env) (argv : list string) (inputs : list stimulus) :
  In EInotifyInit (history (snd (main e argv inputs initial))) ->
  exists a rest,
    tl (snd (getopt e argv)) = a :: rest /\
    checks_passed e (if occurs "." a then a else CONFIG_FILE e).
Proof.
  intros Hin.
  pose proof (gate_startup e argv inputs
                {| sc := true; fd := 0; wd := 0;
                   atexit_list := [Cleanup]; trace := [] |}) as H.
  change (main e argv inputs initial) with
    (startup e argv inputs {| sc := true; fd := 0; wd := 0;
                              atexit_list := [Cleanup]; trace := [] |})
    in Hin.
  assert (Hgate : unopened (snd (startup e argv inputs
                     {| sc := true; fd := 0; wd := 0;
                        atexit_list := [Cleanup]; trace := [] |}))
                  \/ exists a rest,
                       tl (snd (getopt e argv)) = a :: rest /\
                       checks_passed e
                         (if occurs "." a then a else CONFIG_FILE e)).
  { destruct (startup e argv inputs _) as [[a| | |] s']; apply H; reflexivity. }
  destruct Hgate as [Hno|Hyes]; [|exact Hyes].
  exfalso. unfold unopened in Hno.
  assert (Hf : In EInotifyInit (filter is_init (history (snd
            (startup e argv inputs
               {| sc := true; fd := 0; wd := 0;
                  atexit_list := [Cleanup]; trace := [] |})))))
    by (apply filter_In; split; [exact Hin | reflexivity]).
  rewrite Hno in Hf. exact Hf.
Qed.

Lemma inotify_only_after_the_checks_witness :
  In EInotifyInit
     (history (snd (main strict_env ["fileguard"; "conf.yaml"] [] initial))) /\
  exists a rest,
    tl (snd (getopt strict_env ["fileguard"; "conf.yaml"])) = a :: rest /\
    checks_passed strict_env
      (if occurs "." a then a else CONFIG_FILE strict_env).
Proof.
  assert (H : In EInotifyInit
                 (history (snd (main strict_env ["fileguard"; "conf.yaml"] []
                                     initial))))
    by (vm_compute; repeat (try (left; reflexivity); right)).
  split; [exact H|].
  exact (inotify_only_after_the_checks strict_env
           ["fileguard"; "conf.yaml"] [] H).
Defined.

(** ** Exits before [inotify_init] *)

Lemma untouched_push (x : effect) (s : state) :
  is_init x = false -> is_rm_watch x = false -> untouched s -> untouched (push x s).
Proof.
  intros Hi Hr (Hfd & Hwd & Hat & Hrm & Hun).
  repeat split; try assumption.
  - rewrite history_push, filter_app, Hrm. cbn [filter]. rewrite Hr.
    reflexivity.
  - apply unopened_push; assumption.
Qed.

Lemma untouched_exited (s : state) : untouched s -> released_unopened (exited s).
Proof.
  intros (Hfd & Hwd & Hat & Hrm & Hun) _.
  rewrite history_exited, filter_app, Hrm, Hfd, Hwd, Hat. reflexivity.
Qed.

Lemma opened_not_unopened (s : state) :
  seen s -> released_unopened s.
Proof.
  unfold seen. intros Hin Hun. exfalso. unfold unopened in Hun.
  assert (Hf : In EInotifyInit (filter is_init (history s)))
    by (apply filter_In; split; [exact Hin | reflexivity]).
  rewrite Hun in Hf. exact Hf.
Qed.

Lemma seen_push (x : effect) (s : state) :
  seen s -> seen (push x s).
Proof.
  unfold seen. intros H. rewrite history_push. apply in_or_app. left. exact H.
Qed.

Lemma seen_exited (s : state) : seen s -> seen (exited s).
Proof.
  unfold seen. intros H. rewrite history_exited. apply in_or_app. left. exact H.
Qed.

Lemma seen_signalled (s : state) : seen s -> seen (signalled s).
Proof.
  unfold seen. intros H. rewrite history_signalled. apply in_or_app. left. exact H.
Qed.

Ltac untouched_side :=
  intros;
  repeat first [ assumption
               | exact I
               | apply untouched_exited
               | apply untouched_push; [reflexivity|reflexivity|] ].

Ltac seen_side :=
  intros;
  repeat first [ assumption
               | exact I
               | apply opened_not_unopened
               | apply seen_signalled
               | apply seen_exited
               | apply seen_push ].

Section EarlyExit.

Variable e : env.

Local Abbreviation early m :=
  (triple untouched m untouched (fun _ => released_unopened) (fun _ _ => True)
          (fun _ => True)).

Lemma early_parse_options (argv0 : string) (opts : list ascii) :
  forall verbose notifier,
    early (parse_options argv0 opts verbose notifier).
Proof.
  induction opts as [|c opts IH]; intros verbose notifier; cbn [parse_options].
  - triple_auto untouched untouched_side.
  - triple_auto untouched untouched_side; apply IH.
Qed.

Lemma early_check_event (name : string) : early (check_event name).
Proof.
  intros s Hs. unfold check_event.
  destruct (scan_events_outcome name events 0) as [-> | [f ->]];
    [exact Hs | exact I].
Qed.

Lemma early_watch (notifier : Z) (y : yaml_t) (inputs : list stimulus) :
  early (watch e notifier y inputs).
Proof.
  unfold watch.
  eapply triple_bind with (R1 := seen).
  { apply triple_emit. intros s _. unfold seen. rewrite history_push.
    apply in_or_app. right. left. reflexivity. }
  intros _. unfold set_fd, set_wd.
  triple_auto seen seen_side;
    try (apply triple_watch_loop; seen_side);
    try (intros s Hs; exact Hs).
Qed.

Lemma early_configure (notifier : Z) (yaml_target : string)
      (inputs : list stimulus) :
  early (configure e notifier yaml_target inputs).
Proof.
  unfold configure.
  triple_auto untouched untouched_side;
    try apply early_check_event; apply early_watch.
Qed.

Lemma early_startup (argv : list string) (inputs : list stimulus) :
  early (startup e argv inputs).
Proof.
  unfold startup, init_verbosity, select_yaml.
  triple_auto untouched untouched_side;
    try apply early_parse_options; apply early_configure.
Qed.

End EarlyExit.

(** X13.  When the process exits without having called [inotify_init]
    (the help, a wrong option, no argument, or a failed check of the
    configuration), the [atexit] handler still runs, on the initial
    values of the globals: its one call is [inotify_rm_watch (0, 0)]. *)
Theorem early_exit_removes_watch_zero
        (e : env) (argv : list string) (inputs : list stimulus)
        (status : Z) (s' : state) :
  main e argv inputs initial = (Exited status, s') ->
  filter is_init (history s') = [] ->
  filter is_rm_watch (history s') = [EInotifyRmWatch 0 0].
Proof.
  intros Hrun Hun.
  pose proof (early_startup e argv inputs
                {| sc := true; fd := 0; wd := 0;
                   atexit_list := [Cleanup]; trace := [] |}) as H.
  change (main e argv inputs initial) with
    (startup e argv inputs {| sc := true; fd := 0; wd := 0;
                              atexit_list := [Cleanup]; trace := [] |})
    in Hrun.
  rewrite Hrun in H. apply H; [|exact Hun].
  repeat split; reflexivity.
Qed.

Lemma early_exit_removes_watch_zero_witness :
  main (demo_env execute_rule 0 0 3) ["fileguard"; "-h"] [] initial
  = (Exited EXIT_SUCCESS,
     snd (main (demo_env execute_rule 0 0 3) ["fileguard"; "-h"] [] initial))
  /\
  filter is_init
    (history (snd (main (demo_env execute_rule 0 0 3) ["fileguard"; "-h"] []
                        initial))) = [] /\
  filter is_rm_watch
    (history (snd (main (demo_env execute_rule 0 0 3) ["fileguard"; "-h"] []
                        initial))) = [EInotifyRmWatch 0 0].
Proof.
  assert (H1 : main (demo_env execute_rule 0 0 3) ["fileguard"; "-h"] []
                    initial
               = (Exited EXIT_SUCCESS,
                  snd (main (demo_env execute_rule 0 0 3)
                            ["fileguard"; "-h"] [] initial)))
    by (vm_compute; reflexivity).
  assert (H2 : filter is_init
                 (history (snd (main (demo_env execute_rule 0 0 3)
                                     ["fileguard"; "-h"] [] initial))) = [])
    by (vm_compute; reflexivity).
  split; [exact H1|]. split; [exact H2|].
  exact (early_exit_removes_watch_zero (demo_env execute_rule 0 0 3)
           ["fileguard"; "-h"] [] EXIT_SUCCESS _ H1 H2).
Defined.

(** ** The option loop and the choice of the configuration *)

(** X14.  Of the arguments only the first is looked at when the
    configuration file is chosen: it is taken, and logged, when it has a
    dot anywhere in it, whatever follows the last dot, and the default
    [CONFIG_FILE] is taken when it has none. *)
Theorem first_argument_decides_the_file
        (e : env) (a : string) (others : list string) (s : state) :
  select_yaml e (a :: others) s
  = if occurs "." a
    then (Ret (Some a), push (ELog LInfo "yaml file: %s" [AStr a]) s)
    else (Ret (Some (CONFIG_FILE e)), s).
Proof.
  unfold select_yaml. rewrite extension_check_dot.
  destruct (occurs "." a); reflexivity.
Qed.

(** X15.  With no option and no argument behind the program name the
    default configuration is not tried: the process sets the log level,
    prints the usage and ["No required YAML configuration supplied"], and
    exits with [EXIT_FAILURE]; no file is checked or created. *)
Theorem no_argument_is_refused
        (e : env) (argv argv' : list string) (inputs : list stimulus) :
  getopt e argv = ([], argv') ->
  tl argv' = [] ->
  fst (main e argv inputs initial) = Exited EXIT_FAILURE /\
  history (snd (main e argv inputs initial))
  = [ if stack_verbose e =? 0 then ELogSetQuiet 1 else ELogSetLevel 3;
      EPrintf Stdout usage_text [AStr (hd EmptyString argv')];
      EPrintf Stderr "\nError: No required YAML configuration supplied.\n" [];
      EInotifyRmWatch 0 0 ].
Proof.
  intros Hopt Htl. unfold main, startup. rewrite Hopt, Htl.
  cbn [parse_options select_yaml]. unfold init_verbosity.
  cbv [bind atexit ret].
  destruct (stack_verbose e =? 0); split; reflexivity.
Qed.

Lemma no_argument_is_refused_witness :
  getopt (demo_env execute_rule 0 0 3) ["fileguard"] = ([], ["fileguard"]) /\
  tl ["fileguard"] = [] /\
  fst (main (demo_env execute_rule 0 0 3) ["fileguard"] [Sigint] initial)
  = Exited EXIT_FAILURE /\
  history (snd (main (demo_env execute_rule 0 0 3) ["fileguard"] [Sigint]
                     initial))
  = [ if stack_verbose (demo_env execute_rule 0 0 3) =? 0
      then ELogSetQuiet 1 else ELogSetLevel 3;
      EPrintf Stdout usage_text [AStr (hd EmptyString ["fileguard"])];
      EPrintf Stderr "\nError: No required YAML configuration supplied.\n" [];
      EInotifyRmWatch 0 0 ].
Proof.
  assert (H1 : getopt (demo_env execute_rule 0 0 3) ["fileguard"]
               = ([], ["fileguard"])) by reflexivity.
  assert (H2 : tl ["fileguard"] = @nil string) by reflexivity.
  split; [exact H1|]. split; [exact H2|].
  exact (no_argument_is_refused (demo_env execute_rule 0 0 3)
           ["fileguard"] ["fileguard"] [Sigint] H1 H2).
Defined.

(** X16.  Options [-v] and [-n], in any number and order: the loop goes
    through all of them, logs one line for each, and leaves [verbose] at
    [1] if [-v] was among them and as it was otherwise, and likewise
    [notifier] for [-n]. *)
Theorem flags_are_only_set
        (argv0 : string) (opts : list ascii) :
  forallb is_flag opts = true ->
  forall (verbose notifier : Z) (s : state),
    parse_options argv0 opts verbose notifier s
    = (Ret (if existsb (Ascii.eqb "v") opts then 1 else verbose,
            if existsb (Ascii.eqb "n") opts then 1 else notifier),
       pushes (map flag_line opts) s).
Proof.
  induction opts as [|c opts IH]; intros Hflags verbose notifier s.
  - reflexivity.
  - cbn [forallb] in Hflags. apply andb_true_iff in Hflags.
    destruct Hflags as [Hc Hrest]. unfold is_flag in Hc.
    cbn [parse_options existsb map pushes].
    destruct (Ascii.eqb_spec c "h") as [->|_]; [discriminate Hc|].
    destruct (Ascii.eqb_spec c "v") as [->|Hv].
    + unfold log_debug. rewrite bind_emit, IH by exact Hrest.
      cbn [orb Ascii.eqb]. f_equal. f_equal.
      destruct (existsb (Ascii.eqb "v") opts); reflexivity.
    + destruct (Ascii.eqb_spec c "n") as [->|Hn]; [|discriminate Hc].
      unfold log_debug. rewrite bind_emit, IH by exact Hrest.
      f_equal. f_equal.
      destruct (existsb (Ascii.eqb "n") opts); reflexivity.
Qed.

Lemma flags_are_only_set_witness :
  forallb is_flag ["n"; "v"; "n"]%char = true /\
  parse_options "fileguard" ["n"; "v"; "n"]%char 7 0 initial
  = (Ret (if existsb (Ascii.eqb "v") ["n"; "v"; "n"]%char then 1 else 7,
          if existsb (Ascii.eqb "n") ["n"; "v"; "n"]%char then 1 else 0),
     pushes (map flag_line ["n"; "v"; "n"]%char) initial).
Proof.
  assert (H : forallb is_flag ["n"; "v"; "n"]%char = true) by reflexivity.
  split; [exact H|].
  exact (flags_are_only_set "fileguard" ["n"; "v"; "n"]%char H 7 0 initial).
Defined.

(** X17.  The first option that is neither [-v] nor [-n] ends the
    process: the usage is printed and the process exits, with
    [EXIT_SUCCESS] if the option is [-h] and with [EXIT_FAILURE]
    otherwise; the options behind it have no effect. *)
Theorem other_option_ends_the_process
        (argv0 : string) (before : list ascii) (c : ascii)
        (behind : list ascii) :
  forallb is_flag before = true ->
  is_flag c = false ->
  forall (verbose notifier : Z) (s : state),
    parse_options argv0 (before ++ c :: behind) verbose notifier s
    = (Exited (if Ascii.eqb c "h" then EXIT_SUCCESS else EXIT_FAILURE),
       exited (push (EPrintf Stdout usage_text [AStr argv0])
                    (pushes (map flag_line before) s))).
Proof.
  intros Hflags Hc.
  induction before as [|b before IH]; intros verbose notifier s.
  - cbn [app parse_options map pushes]. unfold is_flag in Hc.
    apply orb_false_elim in Hc. destruct Hc as [Hv Hn].
    rewrite Hv, Hn. unfold usage, fprintf.
    destruct (Ascii.eqb c "h"); rewrite bind_emit, exit_state; reflexivity.
  - cbn [forallb] in Hflags. apply andb_true_iff in Hflags.
    destruct Hflags as [Hb Hrest]. unfold is_flag in Hb.
    cbn [app parse_options map pushes].
    destruct (Ascii.eqb_spec b "h") as [->|_]; [discriminate Hb|].
    destruct (Ascii.eqb_spec b "v") as [->|Hv].
    + unfold log_debug. rewrite bind_emit. apply IH, Hrest.
    + destruct (Ascii.eqb_spec b "n") as [->|Hn]; [|discriminate Hb].
      unfold log_debug. rewrite bind_emit. apply IH, Hrest.
Qed.

Lemma other_option_ends_the_process_witness :
  forallb is_flag ["v"]%char = true /\
  is_flag "x" = false /\
  parse_options "fileguard" (["v"] ++ "x" :: ["n"])%char 0 0 initial
  = (Exited (if Ascii.eqb "x" "h" then EXIT_SUCCESS else EXIT_FAILURE),
     exited (push (EPrintf Stdout usage_text [AStr "fileguard"])
                  (pushes (map flag_line ["v"]%char) initial))).
Proof.
  assert (H1 : forallb is_flag ["v"]%char = true) by reflexivity.
  assert (H2 : is_flag "x" = false) by reflexivity.
  split; [exact H1|]. split; [exact H2|].
  exact (other_option_ends_the_process "fileguard" ["v"]%char "x"%char
           ["n"]%char H1 H2 0 0 initial).
Defined.

(** ** The configured event and the action string *)

(** X18.  For each of the thirteen names of the table the scan stops at
    that name, having read entries inside the table only, and the name is
    accepted: [event_flag] is [0]. *)
Theorem known_event_is_accepted (name : string) (s : state) :
  In name events ->
  check_event name s = (Ret 0, s) /\
  Forall (fun i => 0 <= i < 13) (fst (scan_events name events 0)).
Proof.
  intros Hin. destruct (scan_events_known name events Hin 0) as [Hr Hreads].
  split.
  - unfold check_event. rewrite Hr. reflexivity.
  - exact Hreads.
Qed.

Lemma known_event_is_accepted_witness :
  In "IN_UNMOUNT" events /\
  check_event "IN_UNMOUNT" initial = (Ret 0, initial) /\
  Forall (fun i => 0 <= i < 13) (fst (scan_events "IN_UNMOUNT" events 0)).
Proof.
  assert (H : In "IN_UNMOUNT" events)
    by (vm_compute; repeat (try (left; reflexivity); right)).
  split; [exact H|].
  exact (known_event_is_accepted "IN_UNMOUNT" initial H).
Defined.

Lemma append_empty_r (s : string) : (s ++ EmptyString)%string = s.
Proof.
  induction s as [|c s IH]; cbn [append]; [reflexivity | rewrite IH; reflexivity].
Qed.

Lemma skip_delims_only (delim lead s : string) :
  only delim lead = true ->
  skip_delims delim (lead ++ s) = skip_delims delim s.
Proof.
  induction lead as [|c lead IH]; cbn [only append skip_delims]; intros H.
  - reflexivity.
  - apply andb_true_iff in H. destruct H as [Hc Hl]. rewrite Hc. apply IH, Hl.
Qed.

Lemma scan_token_clean (delim tok : string) (d : ascii) (rest : string) :
  clean delim tok = true -> is_delim d delim = true ->
  scan_token delim (tok ++ String d rest) = (tok, rest).
Proof.
  intros Hc Hd. induction tok as [|c tok IH]; cbn [append scan_token].
  - rewrite Hd. reflexivity.
  - cbn [clean] in Hc. apply andb_true_iff in Hc. destruct Hc as [Hn Ht].
    apply negb_true_iff in Hn. rewrite Hn, (IH Ht). reflexivity.
Qed.

Lemma scan_token_clean_end (delim tok : string) :
  clean delim tok = true -> scan_token delim tok = (tok, EmptyString).
Proof.
  induction tok as [|c tok IH]; cbn [clean scan_token]; intros Hc.
  - reflexivity.
  - apply andb_true_iff in Hc. destruct Hc as [Hn Ht].
    apply negb_true_iff in Hn. rewrite Hn, (IH Ht). reflexivity.
Qed.

Lemma skip_delims_clean (delim tok rest : string) :
  tok <> EmptyString -> clean delim tok = true ->
  skip_delims delim (tok ++ rest) = (tok ++ rest)%string.
Proof.
  destruct tok as [|c tok]; [congruence|]. intros _ Hc.
  cbn [clean] in Hc. apply andb_true_iff in Hc. destruct Hc as [Hn _].
  apply negb_true_iff in Hn. cbn [append skip_delims]. rewrite Hn.
  reflexivity.
Qed.

(** A token between delimiters. *)
Lemma strtok_token (delim lead tok : string) (d : ascii) (rest : string) :
  only delim lead = true -> tok <> EmptyString -> clean delim tok = true ->
  is_delim d delim = true ->
  strtok (lead ++ tok ++ String d rest) delim = (Some tok, rest).
Proof.
  intros Hl Hne Hc Hd. unfold strtok.
  rewrite skip_delims_only, skip_delims_clean by assumption.
  destruct tok as [|c tok]; [congruence|].
  cbn [append].
  change (String c (tok ++ String d rest))
    with (String c tok ++ String d rest)%string.
  rewrite scan_token_clean by assumption. reflexivity.
Qed.

(** A token at the end of the string. *)
Lemma strtok_last (delim lead tok : string) :
  only delim lead = true -> tok <> EmptyString -> clean delim tok = true ->
  strtok (lead ++ tok) delim = (Some tok, EmptyString).
Proof.
  intros Hl Hne Hc. unfold strtok.
  rewrite skip_delims_only by assumption.
  rewrite <- (append_empty_r tok) at 1.
  rewrite skip_delims_clean by assumption.
  rewrite append_empty_r.
  destruct tok as [|c tok]; [congruence|].
  rewrite scan_token_clean_end by assumption. reflexivity.
Qed.

Lemma strtok_only (delim s : string) :
  only delim s = true -> strtok s delim = (None, EmptyString).
Proof.
  intros H. unfold strtok.
  rewrite <- (append_empty_r s), skip_delims_only by assumption.
  reflexivity.
Qed.

(** X19.  How the action string is split: the mode is the word before
    the first space, and the target is what follows that space up to the
    next double quote or the end of the string, double quotes at its start
    set aside; spaces inside the target are kept.  With these the process
    enters the read loop. *)
Theorem action_is_split
        (e : env) (notifier : Z) (y : yaml_t) (inputs : list stimulus)
        (mode lead cmd tail : string) (s : state) :
  mode <> EmptyString -> clean " " mode = true ->
  only dquote lead = true ->
  cmd <> EmptyString -> clean dquote cmd = true ->
  (tail = EmptyString \/ exists t, tail = (dquote ++ t)%string) ->
  action y = (mode ++ " " ++ lead ++ cmd ++ tail)%string ->
  watch e notifier y inputs s
  = bind (watch_loop e notifier mode cmd (event y) inputs)
         (fun _ => @exit unit EXIT_SUCCESS) (opened e y s).
Proof.
  intros Hm Hmc Hl Hc Hcc Htail Hact.
  assert (H1 : strtok (action y) " " = (Some mode, lead ++ cmd ++ tail)%string).
  { rewrite Hact.
    change (mode ++ " " ++ lead ++ cmd ++ tail)%string
      with (EmptyString ++ mode ++ String " " (lead ++ cmd ++ tail))%string.
    apply strtok_token; try assumption; reflexivity. }
  assert (H2 : exists rest,
             strtok (lead ++ cmd ++ tail)%string dquote = (Some cmd, rest)).
  { destruct Htail as [->|[t ->]].
    - exists EmptyString. rewrite append_empty_r.
      apply strtok_last; assumption.
    - exists t. apply strtok_token; try assumption. reflexivity. }
  destruct H2 as [rest H2].
  exact (watch_opened e notifier y inputs mode _ cmd rest s H1 H2).
Qed.

Lemma action_is_split_witness :
  "execute" <> EmptyString /\ clean " " "execute" = true /\
  only dquote dquote = true /\
  "ls -la" <> EmptyString /\ clean dquote "ls -la" = true /\
  (dquote = EmptyString \/ exists t, dquote = (dquote ++ t)%string) /\
  action execute_rule = ("execute" ++ " " ++ dquote ++ "ls -la" ++ dquote)%string
  /\
  watch (demo_env execute_rule 0 0 3) 0 execute_rule [Sigint] initial
  = bind (watch_loop (demo_env execute_rule 0 0 3) 0 "execute" "ls -la"
                     (event execute_rule) [Sigint])
         (fun _ => @exit unit EXIT_SUCCESS)
         (opened (demo_env execute_rule 0 0 3) execute_rule initial).
Proof.
  assert (H1 : "execute" <> EmptyString) by discriminate.
  assert (H2 : clean " " "execute" = true) by reflexivity.
  assert (H3 : only dquote dquote = true) by reflexivity.
  assert (H4 : "ls -la" <> EmptyString) by discriminate.
  assert (H5 : clean dquote "ls -la" = true) by reflexivity.
  assert (H6 : dquote = EmptyString \/ exists t, dquote = (dquote ++ t)%string)
    by (right; exists EmptyString; reflexivity).
  assert (H7 : action execute_rule
               = ("execute" ++ " " ++ dquote ++ "ls -la" ++ dquote)%string)
    by reflexivity.
  split; [exact H1|]. split; [exact H2|]. split; [exact H3|].
  split; [exact H4|]. split; [exact H5|]. split; [exact H6|].
  split; [exact H7|].
  exact (action_is_split (demo_env execute_rule 0 0 3) 0 execute_rule
           [Sigint] "execute" dquote "ls -la" dquote initial
           H1 H2 H3 H4 H5 H6 H7).
Defined.

(** X20.  An action string without a space in it, a lone mode word or
    the empty string, has no target: the process reports
    ["Command/path cannot be none"] and exits with [EXIT_FAILURE].  It
    does so only after [inotify_init] and [inotify_add_watch] have been
    called, and without reading from the channel. *)
Theorem action_without_target_is_rejected
        (e : env) (notifier : Z) (y : yaml_t) (inputs : list stimulus)
        (s : state) :
  clean " " (action y) = true ->
  fst (watch e notifier y inputs s) = Exited EXIT_FAILURE /\
  history (snd (watch e notifier y inputs s))
  = history s ++ open_effects e y
    ++ EPrintf Stderr "Command/path cannot be none. Exiting.\n" []
    :: repeat (EInotifyRmWatch (inotify_init e)
                 (inotify_add_watch e (inotify_init e) (inode y)
                                    IN_ALL_EVENTS))
              (length (atexit_list s)).
Proof.
  intros Hc.
  assert (H1 : exists prepend,
             strtok (action y) " " = (prepend, EmptyString)).
  { destruct (action y) as [|c a] eqn:Ha.
    - exists None. reflexivity.
    - exists (Some (String c a)).
      change (String c a) with (EmptyString ++ String c a)%string at 1.
      apply strtok_last; [reflexivity | discriminate | exact Hc]. }
  destruct H1 as [prepend H1].
  rewrite (watch_rejects e notifier y inputs prepend EmptyString EmptyString
                         s H1 (strtok_empty dquote)).
  unfold fprintf. rewrite bind_emit, exit_state.
  cbn [fst snd]. split; [reflexivity|].
  rewrite history_pushes, history_push, history_opened.
  cbn [push opened fd wd atexit_list].
  rewrite <- !app_assoc. reflexivity.
Qed.

Lemma action_without_target_is_rejected_witness :
  clean " " (action lone_mode_rule) = true /\
  fst (watch (demo_env lone_mode_rule 0 0 3) 0 lone_mode_rule [Sigint]
             initial)
  = Exited EXIT_FAILURE /\
  history (snd (watch (demo_env lone_mode_rule 0 0 3) 0 lone_mode_rule
                      [Sigint] initial))
  = history initial ++ open_effects (demo_env lone_mode_rule 0 0 3)
                                    lone_mode_rule
    ++ EPrintf Stderr "Command/path cannot be none. Exiting.\n" []
    :: repeat (EInotifyRmWatch (inotify_init (demo_env lone_mode_rule 0 0 3))
                 (inotify_add_watch (demo_env lone_mode_rule 0 0 3)
                    (inotify_init (demo_env lone_mode_rule 0 0 3))
                    (inode lone_mode_rule) IN_ALL_EVENTS))
              (length (atexit_list initial)).
Proof.
  assert (H : clean " " (action lone_mode_rule) = true) by reflexivity.
  split; [exact H|].
  exact (action_without_target_is_rejected (demo_env lone_mode_rule 0 0 3) 0
           lone_mode_rule [Sigint] initial H).
Defined.

(** ** How the record loop ends *)

Section LoopEnds.

Variables (e : env) (notifier : Z) (prepend command y_event : string).

Lemma handle_outcome (ev : inotify_event) :
  triple (fun _ => True) (handle e notifier prepend command y_event ev)
         (fun _ => True) (fun z _ => z = EXIT_FAILURE)
         (fun _ _ => False) (fun _ => False).
Proof.
  unfold handle, on_event, dispatch. cbv zeta.
  triple_auto (fun _ : state => True) ltac:(intros; try exact I; reflexivity).
Qed.

Lemma load_event_inside (buf : list byte) (p : Z) :
  0 <= p -> p + sizeof_inotify_event <= Z.of_nat (length buf) ->
  exists ev, load_event buf p = Some ev.
Proof.
  intros H0 H1. unfold load_event.
  destruct (Z.leb_spec 0 p); [|lia].
  destruct (Z.leb_spec (p + sizeof_inotify_event) (Z.of_nat (length buf)));
    [|lia].
  cbn [andb]. eexists. reflexivity.
Qed.

Lemma event_loop_outcome (buf : list byte) (rd : Z) (fuel : nat) :
  rd + 15 <= Z.of_nat (length buf) ->
  forall (p : Z) (s : state),
    0 <= p -> (Z.to_nat (rd - p) <= fuel)%nat ->
    (exists c,
        fst (event_loop e fuel notifier prepend command y_event buf rd p s)
        = Ret c /\ rd <= c) \/
    fst (event_loop e fuel notifier prepend command y_event buf rd p s)
    = Exited EXIT_FAILURE.
Proof.
  intros Hbuf. induction fuel as [|fuel IH]; intros p s Hp Hf.
  - rewrite event_loop_done by lia. left. exists p. split; [reflexivity|lia].
  - destruct (Z_lt_le_dec p rd) as [Hlt|Hge].
    2:{ rewrite event_loop_done by lia. left. exists p.
        split; [reflexivity|lia]. }
    destruct (load_event_inside buf p Hp) as [ev Hev].
    { unfold sizeof_inotify_event. lia. }
    rewrite (event_loop_step _ _ _ _ _ _ _ _ _ ev) by assumption.
    pose proof (handle_outcome ev s I) as Hh. unfold bind.
    destruct (handle e notifier prepend command y_event ev s)
      as [[[]|z|f|] s1].
    + pose proof (load_event_len _ _ _ Hev).
      apply IH; unfold sizeof_inotify_event; lia.
    + right. cbn [fst]. rewrite Hh. reflexivity.
    + contradiction.
    + contradiction.
Qed.

End LoopEnds.

(** X21.  The loop over the records never reads a header outside the
    buffer array when the array has 15 bytes or more behind the [rd] valid
    ones, whatever these bytes hold: from any offset in the array it
    either ends by itself, and then with the cursor at or behind [rd], or
    it ends the process with [EXIT_FAILURE] from the log branch.  It does
    not end in the middle of the valid bytes. *)
Theorem record_loop_ends_behind_the_valid_bytes
        (e : env) (notifier : Z) (prepend command y_event : string)
        (buf : list byte) (rd p : Z) (fuel : nat) (s : state) :
  rd + 15 <= Z.of_nat (length buf) ->
  0 <= p -> (Z.to_nat (rd - p) <= fuel)%nat ->
  (exists c,
      fst (event_loop e fuel notifier prepend command y_event buf rd p s)
      = Ret c /\ rd <= c) \/
  fst (event_loop e fuel notifier prepend command y_event buf rd p s)
  = Exited EXIT_FAILURE.
Proof.
  intros Hbuf Hp Hf. apply event_loop_outcome; assumption.
Qed.

Lemma record_loop_ends_behind_the_valid_bytes_witness :
  48 + 15 <= Z.of_nat (length (buffer 64 (pack [ev_open; ev_modify; ev_delete])))
  /\ 0 <= 0 /\ (Z.to_nat (48 - 0) <= 48)%nat /\
  ((exists c,
      fst (event_loop (demo_env log_rule 0 0 3) 48 0 "log"
             "/tmp/fileguard.log" "IN_MODIFY"
             (buffer 64 (pack [ev_open; ev_modify; ev_delete])) 48 0 initial)
      = Ret c /\ 48 <= c) \/
   fst (event_loop (demo_env log_rule 0 0 3) 48 0 "log"
          "/tmp/fileguard.log" "IN_MODIFY"
          (buffer 64 (pack [ev_open; ev_modify; ev_delete])) 48 0 initial)
   = Exited EXIT_FAILURE).
Proof.
  assert (H1 : 48 + 15 <= Z.of_nat (length (buffer 64
                 (pack [ev_open; ev_modify; ev_delete]))))
    by (vm_compute; discriminate).
  assert (H2 : 0 <= 0) by lia.
  assert (H3 : (Z.to_nat (48 - 0) <= 48)%nat) by (vm_compute; lia).
  split; [exact H1|]. split; [exact H2|]. split; [exact H3|].
  exact (record_loop_ends_behind_the_valid_bytes (demo_env log_rule 0 0 3) 0
           "log" "/tmp/fileguard.log" "IN_MODIFY"
           (buffer 64 (pack [ev_open; ev_modify; ev_delete])) 48 0 48 initial
           H1 H2 H3).
Defined.
